(** * SceneViewer: the watermelon viewer of [src/App.jsx]

    A shallow embedding of the [useEffect] body of [App]: the closure state
    ([isDragging], [lastX], [lastY], the rotation of [watermelonGroup], the
    camera and the renderer), the pointer and touch listeners, the resize
    listener, the render loop, the striped canvas texture and the
    normalisation done by the OBJ load callback.

    Numbers.  A JavaScript number is modelled as a real number: [+], [-],
    [*] and [/] are the exact operations, [Math.PI] is [PI], [Math.max] and
    [Math.min] are [Rmax] and [Rmin].  Rounding, infinities and NaN of
    IEEE binary64 are outside this model.  Module [Binary64] carries the
    arithmetic of a drag on binary64 floats: the two drag scenarios are
    re-run there and the bound on the pitch is proved there as well.

    three.js.  [Box3], [Vector3] and the texture are modelled as far as the
    callbacks use them: a box is empty or spans two corners, and the box of
    an object is the box of its vertices where its [position] and [scale]
    put them. *)

From Stdlib Require Import Reals Lra List Bool ZArith String Arith Lia.
From Stdlib Require Import Floats SpecFloat FloatAxioms.
Import ListNotations.

Open Scope R_scope.

(** ** JavaScript numbers and [Math] *)

Definition Math_PI : R := PI.

(** [Math.max(a, b)] and [Math.min(a, b)]. *)
Definition Math_max (a b : R) : R := Rmax a b.
Definition Math_min (a b : R) : R := Rmin a b.

(** [Math.max(a, b, c)]. *)
Definition Math_max3 (a b c : R) : R := Rmax (Rmax a b) c.

(** [a || d] on numbers: [a] is falsy exactly when it is [0]. *)
Definition or_default (a d : R) : R := if Req_dec_T a 0 then d else a.

(** How a call ends: normally, or by throwing a [TypeError]. *)
Inductive Completion (A : Type) : Type :=
  | Return (a : A)
  | ThrowTypeError.
Arguments Return {A} a.
Arguments ThrowTypeError {A}.

(** ** DOM events *)

Module Touch.
Record t : Type := mk { clientX : R; clientY : R }.
End Touch.

(** An event object as the listeners read it: [e.touches] is [undefined]
    ([None]) on a mouse event and a list on a touch event. *)
Module Event.
Record t : Type := mk {
  touches : option (list Touch.t);
  clientX : R;
  clientY : R
}.

Definition mouse (x y : R) : t := mk None x y.
Definition touch (ts : list Touch.t) : t := mk (Some ts) 0 0.
End Event.

Record XY : Type := mkXY { x : R; y : R }.

(** [getXY], lines 126-129.  [e.touches[0]] on an empty list is [undefined],
    and reading [clientX] of it throws. *)
Definition getXY (e : Event.t) : Completion XY :=
  match Event.touches e with
  | Some ts =>
      match nth_error ts 0 with
      | Some t0 => Return {| x := Touch.clientX t0; y := Touch.clientY t0 |}
      | None => ThrowTypeError
      end
  | None => Return {| x := Event.clientX e; y := Event.clientY e |}
  end.

(** ** The closure state of the effect *)

(** What one [renderer.render(scene, camera)] call draws: the rotation of
    [watermelonGroup] at the time of the call. *)
Record Frame : Type := mkFrame { drawn_x : R; drawn_y : R }.

Record Viewer : Type := mkViewer {
  isDragging : bool;
  lastX : R;
  lastY : R;
  rotation_x : R;          (* watermelonGroup.rotation.x, the pitch *)
  rotation_y : R;          (* watermelonGroup.rotation.y, the yaw *)
  camera_aspect : R;       (* camera.aspect *)
  renderer_width : Z;      (* the size given to renderer.setSize *)
  renderer_height : Z;
  frames : list Frame      (* the frames drawn so far, latest first *)
}.

Definition set_isDragging (b : bool) (s : Viewer) : Viewer :=
  mkViewer b (lastX s) (lastY s) (rotation_x s) (rotation_y s)
    (camera_aspect s) (renderer_width s) (renderer_height s) (frames s).

Definition set_lastX (v : R) (s : Viewer) : Viewer :=
  mkViewer (isDragging s) v (lastY s) (rotation_x s) (rotation_y s)
    (camera_aspect s) (renderer_width s) (renderer_height s) (frames s).

Definition set_lastY (v : R) (s : Viewer) : Viewer :=
  mkViewer (isDragging s) (lastX s) v (rotation_x s) (rotation_y s)
    (camera_aspect s) (renderer_width s) (renderer_height s) (frames s).

Definition set_rotation_x (v : R) (s : Viewer) : Viewer :=
  mkViewer (isDragging s) (lastX s) (lastY s) v (rotation_y s)
    (camera_aspect s) (renderer_width s) (renderer_height s) (frames s).

Definition set_rotation_y (v : R) (s : Viewer) : Viewer :=
  mkViewer (isDragging s) (lastX s) (lastY s) (rotation_x s) v
    (camera_aspect s) (renderer_width s) (renderer_height s) (frames s).

Definition set_camera_aspect (v : R) (s : Viewer) : Viewer :=
  mkViewer (isDragging s) (lastX s) (lastY s) (rotation_x s) (rotation_y s)
    v (renderer_width s) (renderer_height s) (frames s).

(** [renderer.setSize(w, h)]. *)
Definition renderer_setSize (w h : Z) (s : Viewer) : Viewer :=
  mkViewer (isDragging s) (lastX s) (lastY s) (rotation_x s) (rotation_y s)
    (camera_aspect s) w h (frames s).

(** [renderer.render(scene, camera)]. *)
Definition renderer_render (s : Viewer) : Viewer :=
  mkViewer (isDragging s) (lastX s) (lastY s) (rotation_x s) (rotation_y s)
    (camera_aspect s) (renderer_width s) (renderer_height s)
    (mkFrame (rotation_x s) (rotation_y s) :: frames s).

(** ** Drag and touch listeners, lines 121-158 *)

(** A listener returns how it ended and the state it leaves: what it wrote
    before throwing stays written. *)
Definition Listener : Type := Event.t -> Viewer -> Completion unit * Viewer.

Definition onPointerDown : Listener := fun e s =>
  let s := set_isDragging true s in
  match getXY e with
  | ThrowTypeError => (ThrowTypeError, s)
  | Return p =>
      let s := set_lastX (x p) s in
      let s := set_lastY (y p) s in
      (Return tt, s)
  end.

Definition onPointerMove : Listener := fun e s =>
  if negb (isDragging s) then (Return tt, s)
  else
    match getXY e with
    | ThrowTypeError => (ThrowTypeError, s)
    | Return p =>
        let dx := x p - lastX s in
        let dy := y p - lastY s in
        let s := set_rotation_y (rotation_y s + dx * 0.01) s in
        let s := set_rotation_x (rotation_x s + dy * 0.005) s in
        let s :=
          set_rotation_x
            (Math_max ((- Math_PI) / 3) (Math_min (Math_PI / 3) (rotation_x s)))
            s in
        let s := set_lastX (x p) s in
        let s := set_lastY (y p) s in
        (Return tt, s)
    end.

Definition onPointerUp : Listener := fun _ s =>
  (Return tt, set_isDragging false s).

(** The listeners registered on [renderer.domElement], lines 160-167. *)
Inductive EventType : Type :=
  | mousedown | mousemove | mouseup | mouseleave
  | touchstart | touchmove | touchend | touchcancel.

Definition listener (ty : EventType) : Listener :=
  match ty with
  | mousedown => onPointerDown
  | mousemove => onPointerMove
  | mouseup => onPointerUp
  | mouseleave => onPointerUp
  | touchstart => onPointerDown
  | touchmove => onPointerMove
  | touchend => onPointerUp
  | touchcancel => onPointerUp
  end.

(** ** Resize, lines 170-176 *)

(** [w] and [h] are [container.clientWidth] and [container.clientHeight]
    as read when the listener runs.  [camera.updateProjectionMatrix()]
    derives the projection from [camera.aspect] and writes nothing that the
    state here holds. *)
Definition onResize (w h : Z) (s : Viewer) : Viewer :=
  let s := set_camera_aspect (IZR w / IZR h) s in
  renderer_setSize w h s.

(** ** The render loop, lines 180-187 *)

(** One call of [animate]; the [requestAnimationFrame(animate)] at its end
    is the next [AnimationFrame] of a run. *)
Definition animate (s : Viewer) : Viewer :=
  let s :=
    if negb (isDragging s) then set_rotation_y (rotation_y s + 0.005) s
    else s in
  renderer_render s.

(** ** Runs of the mounted component *)

(** The state built by the effect for a container of [w] by [h], before
    the first [animate()]. *)
Definition initial (w h : Z) : Viewer :=
  {| isDragging := false; lastX := 0; lastY := 0;
     rotation_x := 0; rotation_y := 0;
     camera_aspect := IZR w / IZR h;
     renderer_width := w; renderer_height := h;
     frames := [] |}.

(** The effect ends by calling [animate()] once, line 187. *)
Definition mount (w h : Z) : Viewer := animate (initial w h).

Inductive Op : Type :=
  | Dispatch (ty : EventType) (e : Event.t)
  | AnimationFrame
  | Resize (w h : Z).

Definition step (s : Viewer) (op : Op) : Viewer :=
  match op with
  | Dispatch ty e => snd (listener ty e s)
  | AnimationFrame => animate s
  | Resize w h => onResize w h s
  end.

Definition run (ops : list Op) (s : Viewer) : Viewer := fold_left step ops s.

(** The pitch bound kept by the clamp of [onPointerMove]. *)
Definition pitch_in_range (s : Viewer) : Prop :=
  - (Math_PI / 3) <= rotation_x s <= Math_PI / 3.

(** ** The striped texture, lines 53-70 *)

(** One [ctx.fillRect(x, y, w, h)] call, with the [ctx.fillStyle] it was
    made under. *)
Record FillRect : Type := mkFillRect {
  style : string;
  rect_x : R;
  rect_y : R;
  rect_w : R;
  rect_h : R
}.

(** The 2D context of a canvas: the current fill style and the rectangles
    filled so far, in drawing order. *)
Record Context2D : Type := mkContext2D {
  fillStyle : string;
  filled : list FillRect
}.

Definition set_fillStyle (c : string) (ctx : Context2D) : Context2D :=
  mkContext2D c (filled ctx).

Definition fillRect (rx ry rw rh : R) (ctx : Context2D) : Context2D :=
  mkContext2D (fillStyle ctx)
    (filled ctx ++ [mkFillRect (fillStyle ctx) rx ry rw rh]).

Record Canvas : Type := mkCanvas {
  width : Z;
  height : Z;
  ctx2d : Context2D
}.

(** [for (let i = start; i < start + n; i++) body]. *)
Fixpoint for_loop {St : Type} (n i : nat) (body : nat -> St -> St) (s : St) : St :=
  match n with
  | O => s
  | S n' => for_loop n' (S i) body (body i s)
  end.

Definition texSize : Z := 512.
Definition stripeCount : nat := 14.

Definition light_green : string := "#0b8a25".
Definition dark_green : string := "#033d0b".

(** The body of the loop of lines 60-65. *)
Definition stripe (i : nat) (ctx : Context2D) : Context2D :=
  let ctx :=
    set_fillStyle (if (i mod 2 =? 0)%nat then light_green else dark_green) ctx in
  let y1 := (INR i * IZR texSize) / INR stripeCount in
  let y2 := ((INR i + 1) * IZR texSize) / INR stripeCount in
  fillRect 0 y1 (IZR texSize) (y2 - y1) ctx.

(** A fresh canvas context fills with black. *)
Definition fresh_context : Context2D := mkContext2D "#000000" [].

Definition canvas : Canvas :=
  mkCanvas texSize texSize (for_loop stripeCount 0 stripe fresh_context).

(** The wrapping modes of three.js. *)
Inductive Wrapping : Type :=
  | RepeatWrapping
  | ClampToEdgeWrapping
  | MirroredRepeatWrapping.

Record CanvasTexture : Type := mkCanvasTexture {
  image : Canvas;
  wrapS : Wrapping;
  wrapT : Wrapping;
  repeat_x : R;
  repeat_y : R
}.

(** [new THREE.CanvasTexture(canvas)]: a texture clamps to the edge and
    repeats once until told otherwise. *)
Definition new_CanvasTexture (c : Canvas) : CanvasTexture :=
  mkCanvasTexture c ClampToEdgeWrapping ClampToEdgeWrapping 1 1.

Definition texture : CanvasTexture :=
  let t := new_CanvasTexture canvas in
  let t := mkCanvasTexture (image t) RepeatWrapping (wrapT t) (repeat_x t) (repeat_y t) in
  let t := mkCanvasTexture (image t) (wrapS t) RepeatWrapping (repeat_x t) (repeat_y t) in
  mkCanvasTexture (image t) (wrapS t) (wrapT t) 1 1.

(** The colour of the point [(px, py)] of the canvas: the style of the
    last rectangle filled over it ([None]: nothing was drawn there). *)
Definition covers (r : FillRect) (px py : R) : bool :=
  (if Rle_dec (rect_x r) px then true else false)
  && (if Rlt_dec px (rect_x r + rect_w r) then true else false)
  && (if Rle_dec (rect_y r) py then true else false)
  && (if Rlt_dec py (rect_y r + rect_h r) then true else false).

Definition colorAt (ctx : Context2D) (px py : R) : option string :=
  fold_left (fun acc r => if covers r px py then Some (style r) else acc)
    (filled ctx) None.

(** The bands as the specification words them: the colour of band [i]
    and the rows where it starts and ends.  The rectangles that the loop
    fills are compared with them below. *)
Definition band_color (i : nat) : string :=
  if Nat.even i then light_green else dark_green.

Definition band_top (i : nat) : R := INR i * 512 / 14.
Definition band_bottom (i : nat) : R := (INR i + 1) * 512 / 14.

(** ** Normalisation of the loaded object, lines 100-115 *)

Module Vector3.
Record t : Type := mk { x : R; y : R; z : R }.

Definition zero : t := mk 0 0 0.
Definition sub (a b : t) : t := mk (x a - x b) (y a - y b) (z a - z b).
Definition add (a b : t) : t := mk (x a + x b) (y a + y b) (z a + z b).
Definition multiply (a b : t) : t := mk (x a * x b) (y a * y b) (z a * z b).
Definition multiplyScalar (a : t) (k : R) : t := mk (x a * k) (y a * k) (z a * k).
Definition min (a b : t) : t := mk (Rmin (x a) (x b)) (Rmin (y a) (y b)) (Rmin (z a) (z b)).
Definition max (a b : t) : t := mk (Rmax (x a) (x b)) (Rmax (y a) (y b)) (Rmax (z a) (z b)).
Definition set_y (v : R) (a : t) : t := mk (x a) v (z a).
Definition setScalar (k : R) : t := mk k k k.
End Vector3.

(** The object handed over by [OBJLoader]: its [position], its [scale] and
    the vertices of all its meshes, in the object's own coordinates.  The
    loader leaves the object unrotated and without a parent, and its meshes
    untransformed, so a vertex [v] lies at [position + scale * v]. *)
Record Object3D : Type := mkObject3D {
  position : Vector3.t;
  scale : Vector3.t;
  vertices : list Vector3.t
}.

(** What [OBJLoader] yields for the vertices [vs]. *)
Definition loaded (vs : list Vector3.t) : Object3D :=
  mkObject3D Vector3.zero (Vector3.setScalar 1) vs.

Definition localToWorld (obj : Object3D) (v : Vector3.t) : Vector3.t :=
  Vector3.add (position obj) (Vector3.multiply (scale obj) v).

(** [THREE.Box3]: empty, or the box between two corners. *)
Inductive Box3 : Type :=
  | EmptyBox
  | Box (min max : Vector3.t).

Definition expandByPoint (b : Box3) (p : Vector3.t) : Box3 :=
  match b with
  | EmptyBox => Box p p
  | Box mn mx => Box (Vector3.min mn p) (Vector3.max mx p)
  end.

(** [box.setFromObject(obj)]: the box around the vertices of [obj] where
    they lie. *)
Definition setFromObject (obj : Object3D) : Box3 :=
  fold_left expandByPoint (map (localToWorld obj) (vertices obj)) EmptyBox.

(** [box.getSize(target)] and [box.getCenter(target)]; both give the zero
    vector for an empty box. *)
Definition getSize (b : Box3) : Vector3.t :=
  match b with
  | EmptyBox => Vector3.zero
  | Box mn mx => Vector3.sub mx mn
  end.

Definition getCenter (b : Box3) : Vector3.t :=
  match b with
  | EmptyBox => Vector3.zero
  | Box mn mx => Vector3.multiplyScalar (Vector3.add mn mx) 0.5
  end.

(** [maxDim] and [scale] of lines 104-105. *)
Definition maxDim (obj : Object3D) : R :=
  let size := getSize (setFromObject obj) in
  or_default (Math_max3 (Vector3.x size) (Vector3.y size) (Vector3.z size)) 1.

Definition scaleFactor (obj : Object3D) : R := 3 / maxDim obj.

(** The success callback of [loader.load], from line 100 on, as a function
    of the object it is given: the result is the object added to
    [watermelonGroup], in the coordinates of the group.  The [traverse]
    before it sets materials and shadows and moves nothing. *)
Definition onLoad (obj : Object3D) : Object3D :=
  let obj :=
    mkObject3D (position obj) (Vector3.setScalar (scaleFactor obj)) (vertices obj) in
  let center := getCenter (setFromObject obj) in
  let obj :=
    mkObject3D (Vector3.sub (position obj) center) (scale obj) (vertices obj) in
  mkObject3D (Vector3.set_y (-0.5) (position obj)) (scale obj) (vertices obj).

(** The largest dimension of a box. *)
Definition largestDimension (b : Box3) : R :=
  let size := getSize b in
  Math_max3 (Vector3.x size) (Vector3.y size) (Vector3.z size).

(** ** Definitions used by the statements *)

(** The clamp written in [onPointerMove]. *)
Definition clamp_pitch (v : R) : R :=
  Math_max ((- Math_PI) / 3) (Math_min (Math_PI / 3) v).

(** A drag, a frame in the middle of it, a touch with no finger and a
    release, from the mounted component. *)
Definition sample_ops : list Op :=
  [ Dispatch mousedown (Event.mouse 100 100);
    Dispatch mousemove (Event.mouse 100 260);
    AnimationFrame;
    Dispatch mousemove (Event.mouse 100 900);
    Dispatch touchmove (Event.touch []);
    Dispatch mouseup (Event.mouse 100 900);
    Resize 640 480;
    AnimationFrame ].

(** A press, handled by [onPointerDown], followed by one move, handled by
    [onPointerMove]. *)
Definition press_and_move (e1 e2 : Event.t) (s : Viewer) : Viewer :=
  snd (onPointerMove e2 (snd (onPointerDown e1 s))).

(** The rectangle filled by iteration [i] of the loop. *)
Definition stripe_rect (i : nat) : FillRect :=
  mkFillRect (if (i mod 2 =? 0)%nat then light_green else dark_green)
    0
    ((INR i * IZR texSize) / INR stripeCount)
    (IZR texSize)
    (((INR i + 1) * IZR texSize) / INR stripeCount
     - (INR i * IZR texSize) / INR stripeCount).

(** The unit cube with a corner at its origin. *)
Definition unit_cube : list Vector3.t :=
  [ Vector3.mk 0 0 0; Vector3.mk 1 0 0; Vector3.mk 0 1 0; Vector3.mk 1 1 0;
    Vector3.mk 0 0 1; Vector3.mk 1 0 1; Vector3.mk 0 1 1; Vector3.mk 1 1 1 ].

(** The quotient [a / b] as a JavaScript number: the real [a / b] when [b]
    is not 0, and otherwise no finite number (an infinity or NaN). *)
Definition finite_quotient (a b : R) : option R :=
  if Req_dec_T b 0 then None else Some (a / b).

(** The box around the vertices themselves, before any placement. *)
Definition localBox (vs : list Vector3.t) : Box3 :=
  fold_left expandByPoint vs EmptyBox.

(** A box moved by [p] after scaling by [k]. *)
Definition placeBox (p : Vector3.t) (k : R) (b : Box3) : Box3 :=
  match b with
  | EmptyBox => EmptyBox
  | Box mn mx =>
      Box (Vector3.add p (Vector3.multiply (Vector3.setScalar k) mn))
          (Vector3.add p (Vector3.multiply (Vector3.setScalar k) mx))
  end.

(** The corners of a box are in order. *)
Definition ordered (b : Box3) : Prop :=
  match b with
  | EmptyBox => True
  | Box mn mx =>
      Vector3.x mn <= Vector3.x mx /\
      Vector3.y mn <= Vector3.y mx /\
      Vector3.z mn <= Vector3.z mx
  end.

(** ** The drag arithmetic on binary64 numbers *)

(** The numbers of a JavaScript engine are the kernel's binary64 floats.
    [drag_rotation] is the arithmetic of [onPointerMove], lines 141-150, on
    them; [Math.max] and [Math.min] give NaN when an argument is NaN and
    order -0 below +0.  [drag_path] is a press followed by moves: each
    move starts from the coordinates of the one before. *)
Module Binary64.
Local Open Scope float_scope.
Set Warnings "-inexact-float".

Definition Math_PI : float := 0x1.921fb54442d18p+1.

Definition is_neg_zero (f : float) : bool :=
  match classify f with NZero => true | _ => false end.

Definition Math_max (a b : float) : float :=
  if is_nan a || is_nan b then nan
  else if a <? b then b
  else if b <? a then a
  else if is_neg_zero a then b else a.

Definition Math_min (a b : float) : float :=
  if is_nan a || is_nan b then nan
  else if a <? b then a
  else if b <? a then b
  else if is_neg_zero a then a else b.

Definition drag_rotation (rot_x rot_y lastX lastY x y : float)
  : float * float :=
  let dx := x - lastX in
  let dy := y - lastY in
  let rot_y := rot_y + dx * 0.01 in
  let rot_x := rot_x + dy * 0.005 in
  let rot_x := Math_max (- Math_PI / 3) (Math_min (Math_PI / 3) rot_x) in
  (rot_x, rot_y).

Fixpoint drag_path (rot last : float * float) (moves : list (float * float))
  : float * float :=
  match moves with
  | [] => rot
  | (x, y) :: moves' =>
      drag_path (drag_rotation (fst rot) (snd rot) (fst last) (snd last) x y)
        (x, y) moves'
  end.

(** The pitch is a number between [-Math.PI / 3] and [Math.PI / 3]. *)
Definition in_range (v : float) : bool :=
  (- Math_PI / 3 <=? v) && (v <=? Math_PI / 3).

(** The coordinates of an event are finite numbers. *)
Definition finite_xy (p : float * float) : bool :=
  is_finite (fst p) && is_finite (snd p).

Set Warnings "+inexact-float".

(** On the specification of a float: NaN, and zero or finite. *)
Definition sf_is_nan (f : spec_float) : bool :=
  match f with S754_nan => true | _ => false end.

Definition sf_is_finite (f : spec_float) : bool :=
  match f with S754_zero _ | S754_finite _ _ _ => true | _ => false end.
End Binary64.

(** ** Kinds of operations in a run *)

(** A press is what [onPointerDown] handles, a release what [onPointerUp]
    handles. *)
Definition is_press (op : Op) : bool :=
  match op with
  | Dispatch mousedown _ | Dispatch touchstart _ => true
  | _ => false
  end.

Definition is_release (op : Op) : bool :=
  match op with
  | Dispatch mouseup _ | Dispatch mouseleave _
  | Dispatch touchend _ | Dispatch touchcancel _ => true
  | _ => false
  end.

Definition is_frame (op : Op) : bool :=
  match op with
  | AnimationFrame => true
  | _ => false
  end.

(** Neither a press nor a release: a move, a frame or a resize. *)
Definition within_gesture (op : Op) : bool :=
  negb (is_press op) && negb (is_release op).

Definition count_frames (ops : list Op) : nat :=
  List.length (filter is_frame ops).

(** The size carried by the last resize of a run, if there is one. *)
Definition last_resize (ops : list Op) : option (Z * Z) :=
  fold_left
    (fun acc op => match op with Resize w h => Some (w, h) | _ => acc end)
    ops None.

(** The pitch shown by a drawn frame is within the clamp. *)
Definition frame_in_range (f : Frame) : Prop :=
  - (Math_PI / 3) <= drawn_x f <= Math_PI / 3.

(** A move whose coordinates [getXY] reads: the only operation within a
    gesture that [onPointerMove] lets through to the rotation. *)
Definition is_readable_move (op : Op) : bool :=
  match op with
  | Dispatch mousemove e | Dispatch touchmove e =>
      match getXY e with
      | Return _ => true
      | ThrowTypeError => false
      end
  | _ => false
  end.

(** What a drag reads and writes: the pitch, the yaw and the stored
    coordinates. *)
Definition drag_state (s : Viewer) : R * R * R * R :=
  (rotation_x s, rotation_y s, lastX s, lastY s).

(** The statement of line 182, [rotation.y += 0.005]. *)
Definition spin (yaw : R) : R := yaw + 0.005.

(** ** The meshes of the loaded object, lines 92-98 *)

(** A material is [stripedMat] or one that the loader made. *)
Inductive Material : Type :=
  | stripedMat
  | loaderMaterial (id : nat).

(** What the callback of [obj.traverse] reads and writes of a node. *)
Record NodeProps : Type := mkNodeProps {
  isMesh : bool;
  material : Material;
  castShadow : bool;
  receiveShadow : bool
}.

(** An object of the scene graph with its children. *)
#[warnings="-register-all"]
Inductive Node : Type :=
  | mkNode (props : NodeProps) (children : list Node).

(** [node.traverse(callback)] of three.js: the callback on the node, then
    the traversal of each child, for a callback that writes properties of
    the node it is given and leaves the children lists alone. *)
Fixpoint traverse (callback : NodeProps -> NodeProps) (n : Node) : Node :=
  match n with
  | mkNode props children =>
      mkNode (callback props) (map (traverse callback) children)
  end.

(** The callback of lines 92-98. *)
Definition stripe_child (child : NodeProps) : NodeProps :=
  if isMesh child
  then mkNodeProps (isMesh child) stripedMat true true
  else child.

(** The nodes of an object: the object, then the nodes of its children. *)
Fixpoint nodes (n : Node) : list NodeProps :=
  match n with
  | mkNode props children => props :: flat_map nodes children
  end.

(** ** The life of the effect: registration, delivery and cleanup *)

(** The functions of the closure that are registered as listeners. *)
Inductive PointerFn : Type :=
  | fn_onPointerDown
  | fn_onPointerMove
  | fn_onPointerUp.

(** A listener of the window: [onResize] of this effect, or a function of
    other code, which cannot reach the closure. *)
Inductive WindowFn : Type :=
  | fn_onResize
  | fn_foreign (id : nat).

(** A listener of [renderer.domElement] and a listener of [window]: the
    event type, the function, and the [capture] and [passive] options. *)
Record CanvasListener : Type := mkCanvasListener {
  c_type : EventType;
  c_fn : PointerFn;
  c_capture : bool;
  c_passive : bool
}.

Record WindowListener : Type := mkWindowListener {
  w_type : string;
  w_fn : WindowFn;
  w_capture : bool
}.

Definition EventType_eq_dec (a b : EventType) : {a = b} + {a <> b}.
Proof. decide equality. Defined.

Definition PointerFn_eq_dec (a b : PointerFn) : {a = b} + {a <> b}.
Proof. decide equality. Defined.

Definition WindowFn_eq_dec (a b : WindowFn) : {a = b} + {a <> b}.
Proof. decide equality. apply Nat.eq_dec. Defined.

(** Two registrations are the same listener when type, function and
    [capture] agree; [passive] does not count. *)
Definition same_canvas_listener (a b : CanvasListener) : bool :=
  (if EventType_eq_dec (c_type a) (c_type b) then true else false)
  && (if PointerFn_eq_dec (c_fn a) (c_fn b) then true else false)
  && Bool.eqb (c_capture a) (c_capture b).

Definition same_window_listener (a b : WindowListener) : bool :=
  String.eqb (w_type a) (w_type b)
  && (if WindowFn_eq_dec (w_fn a) (w_fn b) then true else false)
  && Bool.eqb (w_capture a) (w_capture b).

(** [target.addEventListener]: appended, unless the same listener is
    there; [target.removeEventListener]: the same listener is taken out. *)
Definition addEventListener {A : Type} (same : A -> A -> bool) (l : A)
    (listeners : list A) : list A :=
  if existsb (same l) listeners then listeners else listeners ++ [l].

Definition removeEventListener {A : Type} (same : A -> A -> bool) (l : A)
    (listeners : list A) : list A :=
  filter (fun l' => negb (same l l')) listeners.

(** The state of the effect and of what it touches in the page: the
    closure, the client size of the container, the listeners of the canvas
    and of the window, whether the canvas is a child of the container,
    whether the renderer was disposed, and whether a call of [animate] is
    requested for the next frame. *)
Record Component : Type := mkComponent {
  viewer : Viewer;
  container_size : Z * Z;
  canvas_listeners : list CanvasListener;
  window_listeners : list WindowListener;
  canvas_attached : bool;
  renderer_disposed : bool;
  frame_requested : bool
}.

Definition set_viewer (v : Viewer) (c : Component) : Component :=
  mkComponent v (container_size c) (canvas_listeners c) (window_listeners c)
    (canvas_attached c) (renderer_disposed c) (frame_requested c).

Definition set_canvas_listeners (l : list CanvasListener) (c : Component)
  : Component :=
  mkComponent (viewer c) (container_size c) l (window_listeners c)
    (canvas_attached c) (renderer_disposed c) (frame_requested c).

Definition set_window_listeners (l : list WindowListener) (c : Component)
  : Component :=
  mkComponent (viewer c) (container_size c) (canvas_listeners c) l
    (canvas_attached c) (renderer_disposed c) (frame_requested c).

(** [renderer.domElement.addEventListener(type, fn)] and the same with
    [{ passive: true }]; [removeEventListener(type, fn)]. *)
Definition canvas_add (ty : EventType) (fn : PointerFn) (passive : bool)
    (c : Component) : Component :=
  set_canvas_listeners
    (addEventListener same_canvas_listener (mkCanvasListener ty fn false passive)
       (canvas_listeners c)) c.

Definition canvas_remove (ty : EventType) (fn : PointerFn) (c : Component)
  : Component :=
  set_canvas_listeners
    (removeEventListener same_canvas_listener (mkCanvasListener ty fn false false)
       (canvas_listeners c)) c.

(** One call of [animate] by the component: the frame, then
    [requestAnimationFrame(animate)]. *)
Definition animate_component (c : Component) : Component :=
  mkComponent (animate (viewer c)) (container_size c) (canvas_listeners c)
    (window_listeners c) (canvas_attached c) (renderer_disposed c) true.

(** The body of the effect for a container of [w] by [h] that is present,
    with the listeners [win] that the window has: the canvas is appended,
    lines 26-30; the listeners are added, lines 160-167 and 177; [animate]
    is called, line 187. *)
Definition effect (w h : Z) (win : list WindowListener) : Component :=
  let c := mkComponent (initial w h) (w, h) [] win true false false in
  let c := canvas_add mousedown fn_onPointerDown false c in
  let c := canvas_add mousemove fn_onPointerMove false c in
  let c := canvas_add mouseup fn_onPointerUp false c in
  let c := canvas_add mouseleave fn_onPointerUp false c in
  let c := canvas_add touchstart fn_onPointerDown true c in
  let c := canvas_add touchmove fn_onPointerMove true c in
  let c := canvas_add touchend fn_onPointerUp false c in
  let c := canvas_add touchcancel fn_onPointerUp false c in
  let c :=
    set_window_listeners
      (addEventListener same_window_listener
         (mkWindowListener "resize" fn_onResize false) (window_listeners c)) c in
  animate_component c.

(** The function that the effect returns, lines 190-204. *)
Definition cleanup (c : Component) : Component :=
  let c :=
    set_window_listeners
      (removeEventListener same_window_listener
         (mkWindowListener "resize" fn_onResize false) (window_listeners c)) c in
  let c := canvas_remove mousedown fn_onPointerDown c in
  let c := canvas_remove mousemove fn_onPointerMove c in
  let c := canvas_remove mouseup fn_onPointerUp c in
  let c := canvas_remove mouseleave fn_onPointerUp c in
  let c := canvas_remove touchstart fn_onPointerDown c in
  let c := canvas_remove touchmove fn_onPointerMove c in
  let c := canvas_remove touchend fn_onPointerUp c in
  let c := canvas_remove touchcancel fn_onPointerUp c in
  let c :=
    if canvas_attached c
    then mkComponent (viewer c) (container_size c) (canvas_listeners c)
           (window_listeners c) false (renderer_disposed c) (frame_requested c)
    else c in
  mkComponent (viewer c) (container_size c) (canvas_listeners c)
    (window_listeners c) (canvas_attached c) true (frame_requested c).

(** What a registered function does to the closure. *)
Definition call_pointer_fn (fn : PointerFn) (e : Event.t) (v : Viewer) : Viewer :=
  match fn with
  | fn_onPointerDown => snd (onPointerDown e v)
  | fn_onPointerMove => snd (onPointerMove e v)
  | fn_onPointerUp => snd (onPointerUp e v)
  end.

Definition call_window_fn (fn : WindowFn) (size : Z * Z) (v : Viewer) : Viewer :=
  match fn with
  | fn_onResize => onResize (fst size) (snd size) v
  | fn_foreign _ => v
  end.

(** An event of type [ty] on the canvas: its listeners of that type are
    called in the order of registration. *)
Definition dispatch_canvas (ty : EventType) (e : Event.t) (c : Component)
  : Component :=
  set_viewer
    (fold_left
       (fun v l =>
          if EventType_eq_dec (c_type l) ty then call_pointer_fn (c_fn l) e v
          else v)
       (canvas_listeners c) (viewer c))
    c.

(** The container takes the client size [(w, h)] and the window gets a
    [resize] event. *)
Definition dispatch_resize (w h : Z) (c : Component) : Component :=
  mkComponent
    (fold_left
       (fun v l =>
          if String.eqb (w_type l) "resize" then call_window_fn (w_fn l) (w, h) v
          else v)
       (window_listeners c) (viewer c))
    (w, h) (canvas_listeners c) (window_listeners c) (canvas_attached c)
    (renderer_disposed c) (frame_requested c).

(** The browser runs the requested call of [animate], if there is one. *)
Definition frame_callback (c : Component) : Component :=
  if frame_requested c then animate_component c else c.

Inductive LifeOp : Type :=
  | CanvasEvent (ty : EventType) (e : Event.t)
  | WindowResize (w h : Z)
  | FrameCallback
  | Cleanup.

Definition life_step (c : Component) (op : LifeOp) : Component :=
  match op with
  | CanvasEvent ty e => dispatch_canvas ty e c
  | WindowResize w h => dispatch_resize w h c
  | FrameCallback => frame_callback c
  | Cleanup => cleanup c
  end.

Definition life_run (ops : list LifeOp) (c : Component) : Component :=
  fold_left life_step ops c.

(** The operation of a run of the closure that a life operation stands
    for; the cleanup is none. *)
Definition as_op (op : LifeOp) : option Op :=
  match op with
  | CanvasEvent ty e => Some (Dispatch ty e)
  | WindowResize w h => Some (Resize w h)
  | FrameCallback => Some AnimationFrame
  | Cleanup => None
  end.

Definition is_cleanup (op : LifeOp) : bool :=
  match op with
  | Cleanup => true
  | _ => false
  end.

Definition is_frame_callback (op : LifeOp) : bool :=
  match op with
  | FrameCallback => true
  | _ => false
  end.

(** No listener of the window is [onResize] of this effect: the function
    is made by the effect. *)
Definition foreign_listeners (win : list WindowListener) : bool :=
  forallb
    (fun l => match w_fn l with fn_onResize => false | fn_foreign _ => true end)
    win.

(** The listeners that the effect adds to the canvas. *)
Definition effect_canvas_listeners : list CanvasListener :=
  [ mkCanvasListener mousedown fn_onPointerDown false false;
    mkCanvasListener mousemove fn_onPointerMove false false;
    mkCanvasListener mouseup fn_onPointerUp false false;
    mkCanvasListener mouseleave fn_onPointerUp false false;
    mkCanvasListener touchstart fn_onPointerDown false true;
    mkCanvasListener touchmove fn_onPointerMove false true;
    mkCanvasListener touchend fn_onPointerUp false false;
    mkCanvasListener touchcancel fn_onPointerUp false false ].

(** The run of the closure that a life of the effect stands for. *)
Definition closure_ops (ops : list LifeOp) : list Op :=
  flat_map (fun op => match as_op op with Some o => [o] | None => [] end) ops.

(** The listeners of the window once the effect has run. *)
Definition effect_window_listeners (win : list WindowListener)
  : list WindowListener :=
  win ++ [mkWindowListener "resize" fn_onResize false].

(** Listeners of other code on the window, and a life of the effect up to
    its cleanup: a drag, frames and a resize. *)
Definition sample_window : list WindowListener :=
  [ mkWindowListener "resize" (fn_foreign 1) false;
    mkWindowListener "scroll" (fn_foreign 2) true ].

Definition sample_life : list LifeOp :=
  [ FrameCallback;
    CanvasEvent touchstart (Event.touch [Touch.mk 40 40]);
    CanvasEvent touchmove (Event.touch [Touch.mk 90 10]);
    WindowResize 1024 768;
    FrameCallback;
    CanvasEvent touchend (Event.touch []) ].

(** What may still happen after the cleanup: events, a resize and a second
    cleanup. *)
Definition sample_afterlife : list LifeOp :=
  [ CanvasEvent mousedown (Event.mouse 1 1);
    CanvasEvent mousemove (Event.mouse 500 500);
    WindowResize 10 10;
    Cleanup ].

(** * Properties *)

(** Evaluates [Rmin] and [Rmax] of numbers that [lra] can order. *)
Ltac minmax :=
  repeat match goal with
    | |- context [Rmin ?a ?b] =>
        first [ rewrite (Rmin_left a b) by lra
              | rewrite (Rmin_right a b) by lra ]
    | |- context [Rmax ?a ?b] =>
        first [ rewrite (Rmax_left a b) by lra
              | rewrite (Rmax_right a b) by lra ]
    end.

(** Unfolds the vector operations down to their coordinates. *)
Ltac vec_simpl :=
  unfold Vector3.min, Vector3.max, Vector3.add, Vector3.sub, Vector3.multiply,
    Vector3.multiplyScalar, Vector3.setScalar, Vector3.set_y, Vector3.zero;
  cbn [Vector3.x Vector3.y Vector3.z].

(** ** The clamp of the pitch *)

Lemma getXY_mouse (px py : R) : getXY (Event.mouse px py) = Return (mkXY px py).
Proof. reflexivity. Qed.

Lemma Math_PI_gt_3 : 3 < Math_PI.
Proof. unfold Math_PI. pose proof PI2_3_2. lra. Qed.

Lemma clamp_pitch_bounds (v : R) :
  - (Math_PI / 3) <= clamp_pitch v <= Math_PI / 3.
Proof.
  pose proof Math_PI_gt_3 as Hpi.
  unfold clamp_pitch, Math_max, Math_min, Rmax, Rmin.
  destruct (Rle_dec (Math_PI / 3) v);
    destruct (Rle_dec _ _); lra.
Qed.

Lemma clamp_pitch_id (v : R) :
  - (Math_PI / 3) <= v <= Math_PI / 3 -> clamp_pitch v = v.
Proof.
  intros Hv.
  unfold clamp_pitch, Math_max, Math_min, Rmax, Rmin.
  destruct (Rle_dec (Math_PI / 3) v);
    destruct (Rle_dec _ _); lra.
Qed.

(** What [onPointerMove] leaves when it runs to its end. *)
Lemma onPointerMove_dragging (e : Event.t) (s : Viewer) (p : XY) :
  isDragging s = true ->
  getXY e = Return p ->
  onPointerMove e s =
    (Return tt,
     {| isDragging := true;
        lastX := x p;
        lastY := y p;
        rotation_x := clamp_pitch (rotation_x s + (y p - lastY s) * 0.005);
        rotation_y := rotation_y s + (x p - lastX s) * 0.01;
        camera_aspect := camera_aspect s;
        renderer_width := renderer_width s;
        renderer_height := renderer_height s;
        frames := frames s |}).
Proof.
  intros Hd Hxy. unfold onPointerMove. rewrite Hxy, Hd. cbn [negb].
  unfold set_lastY, set_lastX, set_rotation_x, set_rotation_y, clamp_pitch.
  cbn [isDragging lastX lastY rotation_x rotation_y camera_aspect
       renderer_width renderer_height frames].
  rewrite Hd. reflexivity.
Qed.

Lemma onPointerMove_idle (e : Event.t) (s : Viewer) :
  isDragging s = false -> onPointerMove e s = (Return tt, s).
Proof. intros Hd. unfold onPointerMove. rewrite Hd. reflexivity. Qed.

(** ** Every listener and every frame keeps the pitch in range *)

Lemma onPointerMove_pitch (e : Event.t) (s : Viewer) :
  pitch_in_range s -> pitch_in_range (snd (onPointerMove e s)).
Proof.
  intros Hs. unfold onPointerMove.
  destruct (isDragging s); cbn [negb]; [ | exact Hs ].
  destruct (getXY e) as [p | ]; [ | exact Hs ].
  unfold pitch_in_range. cbn. apply clamp_pitch_bounds.
Qed.

Lemma onPointerDown_pitch (e : Event.t) (s : Viewer) :
  rotation_x (snd (onPointerDown e s)) = rotation_x s.
Proof. unfold onPointerDown. destruct (getXY e); reflexivity. Qed.

Lemma animate_pitch (s : Viewer) : rotation_x (animate s) = rotation_x s.
Proof. unfold animate. destruct (isDragging s); reflexivity. Qed.

Lemma step_pitch (s : Viewer) (op : Op) :
  pitch_in_range s -> pitch_in_range (step s op).
Proof.
  intros Hs. destruct op as [ty e | | w h]; cbn [step].
  - destruct ty; cbn [listener];
      try (apply onPointerMove_pitch; exact Hs);
      try (unfold pitch_in_range; rewrite onPointerDown_pitch; exact Hs);
      exact Hs.
  - unfold pitch_in_range. rewrite animate_pitch. exact Hs.
  - exact Hs.
Qed.

Lemma run_pitch (ops : list Op) :
  forall s, pitch_in_range s -> pitch_in_range (run ops s).
Proof.
  induction ops as [ | op ops IH]; intros s Hs; cbn [run fold_left].
  - exact Hs.
  - apply IH, step_pitch, Hs.
Qed.

Lemma mount_pitch (w h : Z) : pitch_in_range (mount w h).
Proof.
  unfold pitch_in_range, mount. rewrite animate_pitch. cbn.
  pose proof Math_PI_gt_3. lra.
Qed.

(** C1.  From any state whose pitch [watermelonGroup.rotation.x] is 0, as
    it is when the component is mounted, every sequence of mouse and touch
    events, animation frames and resizes leaves the pitch within
    [-PI/3, PI/3]. *)
Theorem pitch_always_clamped (s : Viewer) (ops : list Op) :
  rotation_x s = 0 ->
  - (Math_PI / 3) <= rotation_x (run ops s) <= Math_PI / 3.
Proof.
  intros H0. apply (run_pitch ops s).
  unfold pitch_in_range. rewrite H0.
  pose proof Math_PI_gt_3. lra.
Qed.

(** The second move of [sample_ops] would take the pitch to 4.8: it stops
    at PI/3 and stays there. *)
Example sample_run_reaches_bound :
  rotation_x (run sample_ops (mount 800 600)) = Math_PI / 3.
Proof.
  pose proof Math_PI_gt_3 as Hpi.
  assert (Hpi4 : Math_PI <= 4) by apply PI_4.
  assert (Hresize : forall w h s, rotation_x (onResize w h s) = rotation_x s)
    by reflexivity.
  assert (Hup : forall e s, rotation_x (snd (onPointerUp e s)) = rotation_x s)
    by reflexivity.
  assert (Hno : forall s,
             rotation_x (snd (onPointerMove (Event.touch []) s)) = rotation_x s)
    by (intros s; unfold onPointerMove; destruct (isDragging s); reflexivity).
  unfold run, sample_ops. cbn [fold_left step listener].
  rewrite animate_pitch, Hresize, Hup, Hno.
  set (s1 := snd (onPointerDown (Event.mouse 100 100) (mount 800 600))).
  set (s2 := snd (onPointerMove (Event.mouse 100 260) s1)).
  assert (H2 : s2 =
               mkViewer true 100 260 (clamp_pitch (0 + (260 - 100) * 0.005))
                 (rotation_y s1 + (100 - 100) * 0.01) (camera_aspect s1)
                 (renderer_width s1) (renderer_height s1) (frames s1)).
  { unfold s2. rewrite (onPointerMove_dragging _ s1 (mkXY 100 260));
      [ | reflexivity | reflexivity ].
    reflexivity. }
  assert (H3 : isDragging (animate s2) = true /\ lastY (animate s2) = 260 /\
               rotation_x (animate s2) = clamp_pitch (0 + (260 - 100) * 0.005)).
  { rewrite animate_pitch, H2. unfold animate. cbn. repeat split. }
  destruct H3 as (Hd3 & Hl3 & Hx3).
  rewrite (onPointerMove_dragging (Event.mouse 100 900) (animate s2)
             (mkXY 100 900) Hd3 (getXY_mouse 100 900)).
  cbn [snd rotation_x x y]. rewrite Hl3, Hx3.
  unfold clamp_pitch, Math_max, Math_min. minmax. reflexivity.
Qed.

Lemma pitch_always_clamped_witness :
  rotation_x (mount 800 600) = 0 /\
  - (Math_PI / 3) <= rotation_x (run sample_ops (mount 800 600)) <= Math_PI / 3.
Proof.
  split.
  - reflexivity.
  - apply (pitch_always_clamped (mount 800 600) sample_ops). reflexivity.
Defined.

(** ** One drag move *)

Lemma press_and_move_rotation (e1 e2 : Event.t) (p1 p2 : XY) (s : Viewer) :
  getXY e1 = Return p1 ->
  getXY e2 = Return p2 ->
  rotation_y (press_and_move e1 e2 s) = rotation_y s + (x p2 - x p1) * 0.01 /\
  rotation_x (press_and_move e1 e2 s) =
    clamp_pitch (rotation_x s + (y p2 - y p1) * 0.005).
Proof.
  intros H1 H2. unfold press_and_move, onPointerDown. rewrite H1.
  cbn [snd].
  rewrite (onPointerMove_dragging e2 _ p2); [ | reflexivity | exact H2 ].
  cbn [snd rotation_x rotation_y]. split; reflexivity.
Qed.

(** C2.  A move handled while dragging adds [(x - lastX) * 0.01] to the yaw
    and [(y - lastY) * 0.005] to the pitch, clamps the pitch to
    [-PI/3, PI/3] and stores [(x, y)] as the last coordinates; a move
    handled while idle changes nothing; a drag from (100,100) to (150,100)
    adds exactly 0.5 to the yaw and leaves a pitch that is in range as it
    is. *)
Theorem pointer_move_updates_rotation :
  (forall (e : Event.t) (s : Viewer) (p : XY),
     isDragging s = true ->
     getXY e = Return p ->
     let s' := snd (onPointerMove e s) in
     rotation_y s' = rotation_y s + (x p - lastX s) * 0.01 /\
     rotation_x s' =
       Math_max ((- Math_PI) / 3)
         (Math_min (Math_PI / 3) (rotation_x s + (y p - lastY s) * 0.005)) /\
     - (Math_PI / 3) <= rotation_x s' <= Math_PI / 3 /\
     lastX s' = x p /\ lastY s' = y p /\
     isDragging s' = true) /\
  (forall (e : Event.t) (s : Viewer),
     isDragging s = false -> onPointerMove e s = (Return tt, s)) /\
  (forall (e1 e2 : Event.t) (s : Viewer),
     getXY e1 = Return (mkXY 100 100) ->
     getXY e2 = Return (mkXY 150 100) ->
     pitch_in_range s ->
     rotation_y (press_and_move e1 e2 s) = rotation_y s + 0.5 /\
     rotation_x (press_and_move e1 e2 s) = rotation_x s).
Proof.
  split; [ | split ].
  - intros e s p Hd Hxy s'. subst s'.
    rewrite (onPointerMove_dragging e s p Hd Hxy).
    cbn [snd rotation_x rotation_y lastX lastY isDragging].
    repeat split; try reflexivity; apply clamp_pitch_bounds.
  - exact onPointerMove_idle.
  - intros e1 e2 s H1 H2 Hs.
    destruct (press_and_move_rotation e1 e2 _ _ s H1 H2) as [Hy Hx].
    rewrite Hy, Hx. cbn [x y]. split; [ lra | ].
    replace (rotation_x s + (100 - 100) * 0.005) with (rotation_x s) by lra.
    apply clamp_pitch_id, Hs.
Qed.

Lemma pointer_move_updates_rotation_witness :
  rotation_y
    (press_and_move (Event.mouse 100 100) (Event.mouse 150 100) (mount 800 600))
  = rotation_y (mount 800 600) + 0.5 /\
  rotation_x
    (press_and_move (Event.mouse 100 100) (Event.mouse 150 100) (mount 800 600))
  = rotation_x (mount 800 600).
Proof.
  apply (proj2 (proj2 pointer_move_updates_rotation)
           (Event.mouse 100 100) (Event.mouse 150 100) (mount 800 600)).
  - reflexivity.
  - reflexivity.
  - apply mount_pitch.
Defined.

(** C3, as the specification states it, fails: from pitch 0 the drag from
    (100,100) to (100,260) leaves the pitch at 0.8, which is below PI/3,
    so the pitch is not PI/3 and nothing was clamped. *)
Lemma drag_down_160_is_not_clamped :
  let s :=
    press_and_move (Event.mouse 100 100) (Event.mouse 100 260) (mount 800 600) in
  rotation_x (mount 800 600) = 0 /\
  rotation_x s = 0.8 /\
  ~ (0.8 > Math_PI / 3) /\
  rotation_x s <> Math_PI / 3.
Proof.
  pose proof Math_PI_gt_3 as Hpi.
  destruct (press_and_move_rotation (Event.mouse 100 100) (Event.mouse 100 260)
              _ _ (mount 800 600) (getXY_mouse _ _) (getXY_mouse _ _))
    as [_ Hx].
  assert (H08 : rotation_x
                  (press_and_move (Event.mouse 100 100) (Event.mouse 100 260)
                     (mount 800 600)) = 0.8).
  { rewrite Hx. cbn [x y]. change (rotation_x (mount 800 600)) with 0.
    replace (0 + (260 - 100) * 0.005) with 0.8 by lra.
    apply clamp_pitch_id. lra. }
  cbv zeta. rewrite H08.
  repeat split; try reflexivity; lra.
Qed.

(** C3, amended.  From pitch 0 the drag from (100,100) to (100,260) adds
    0.8 = 160 * 0.005 to the pitch; 0.8 is below PI/3, so the clamp leaves
    the pitch at 0.8, and the yaw does not change. *)
Theorem drag_down_160_adds_0_8 (e1 e2 : Event.t) (s : Viewer) :
  getXY e1 = Return (mkXY 100 100) ->
  getXY e2 = Return (mkXY 100 260) ->
  rotation_x s = 0 ->
  160 * 0.005 = 0.8 /\
  0.8 < Math_PI / 3 /\
  rotation_x (press_and_move e1 e2 s) = 0.8 /\
  rotation_y (press_and_move e1 e2 s) = rotation_y s.
Proof.
  intros H1 H2 H0. pose proof Math_PI_gt_3 as Hpi.
  destruct (press_and_move_rotation e1 e2 _ _ s H1 H2) as [Hy Hx].
  rewrite Hy, Hx, H0. cbn [x y].
  repeat split; try lra.
  replace (0 + (260 - 100) * 0.005) with 0.8 by lra.
  apply clamp_pitch_id. lra.
Qed.

Lemma drag_down_160_adds_0_8_witness :
  rotation_x
    (press_and_move (Event.mouse 100 100) (Event.mouse 100 260) (mount 800 600))
  = 0.8.
Proof.
  apply (drag_down_160_adds_0_8
           (Event.mouse 100 100) (Event.mouse 100 260) (mount 800 600));
    reflexivity.
Defined.

(** ** Frames, releases, resizes and coordinates *)

(** C5.  A frame adds exactly 0.005 to the yaw when the state is idle and
    nothing when it is dragging, so the yaw grows by 0.005 exactly when the
    state is idle; the frame drawn is the one after the increment; the
    pitch and the drag state are left as they are. *)
Theorem animate_spins_iff_idle (s : Viewer) :
  rotation_y (animate s) =
    (if isDragging s then rotation_y s else rotation_y s + 0.005) /\
  (rotation_y (animate s) = rotation_y s + 0.005 <-> isDragging s = false) /\
  rotation_x (animate s) = rotation_x s /\
  frames (animate s) =
    mkFrame (rotation_x s) (rotation_y (animate s)) :: frames s /\
  isDragging (animate s) = isDragging s.
Proof.
  unfold animate.
  destruct (isDragging s) eqn:Hd;
    cbn [negb renderer_render set_rotation_y rotation_x rotation_y frames
         isDragging];
    rewrite ?Hd.
  - split; [ reflexivity | split; [ | repeat split; reflexivity ] ].
    split; intros H; [ lra | discriminate H ].
  - split; [ reflexivity | split; [ | repeat split; reflexivity ] ].
    split; reflexivity.
Qed.

(** C6.  The listeners of [mouseup], [mouseleave], [touchend] and
    [touchcancel] leave [isDragging] false, whatever the event and the
    state before. *)
Theorem release_events_stop_drag :
  (forall e s, isDragging (snd (listener mouseup e s)) = false) /\
  (forall e s, isDragging (snd (listener mouseleave e s)) = false) /\
  (forall e s, isDragging (snd (listener touchend e s)) = false) /\
  (forall e s, isDragging (snd (listener touchcancel e s)) = false).
Proof. repeat split. Qed.

(** C7.  After [onResize] with a container of [w] by [h], the renderer has
    the size [(w, h)] and the camera the aspect [w / h]. *)
Theorem onResize_sets_size_and_aspect (w h : Z) (s : Viewer) :
  renderer_width (onResize w h s) = w /\
  renderer_height (onResize w h s) = h /\
  camera_aspect (onResize w h s) = IZR w / IZR h.
Proof. repeat split. Qed.

(** C10.  [getXY] gives the coordinates of the first touch when the event
    has a touch list that is not empty and the event's own coordinates when
    it has no touch list; with an empty touch list, and only then, it reads
    a missing element and throws. *)
Theorem getXY_cases :
  (forall t0 ts cx cy,
     getXY (Event.mk (Some (t0 :: ts)) cx cy) =
       Return (mkXY (Touch.clientX t0) (Touch.clientY t0))) /\
  (forall cx cy, getXY (Event.mk None cx cy) = Return (mkXY cx cy)) /\
  (forall cx cy, getXY (Event.mk (Some []) cx cy) = ThrowTypeError) /\
  (forall e, getXY e = ThrowTypeError <-> Event.touches e = Some []).
Proof.
  repeat split; intros.
  - destruct e as [[[ | t0 ts] | ] cx cy]; cbn in *; congruence.
  - destruct e as [ts cx cy]; cbn in *. subst ts. reflexivity.
Qed.

(** A listener that throws keeps what it wrote before: [onPointerDown] on
    a touch event without touches has already set [isDragging], and
    [onPointerMove] has written nothing yet. *)
Lemma listeners_on_empty_touches (s : Viewer) :
  onPointerDown (Event.touch []) s = (ThrowTypeError, set_isDragging true s) /\
  (isDragging s = true ->
   onPointerMove (Event.touch []) s = (ThrowTypeError, s)).
Proof.
  split; [ reflexivity | ].
  intros Hd. unfold onPointerMove. rewrite Hd. reflexivity.
Qed.

(** ** The striped texture *)

Lemma for_loop_stripe (n : nat) :
  forall i ctx,
    filled (for_loop n i stripe ctx) = filled ctx ++ map stripe_rect (seq i n).
Proof.
  induction n as [ | n IH]; intros i ctx; cbn [for_loop seq map].
  - rewrite app_nil_r. reflexivity.
  - rewrite IH. unfold stripe, fillRect, set_fillStyle.
    cbn [filled fillStyle]. rewrite <- app_assoc. reflexivity.
Qed.

Lemma canvas_filled : filled (ctx2d canvas) = map stripe_rect (seq 0 stripeCount).
Proof. unfold canvas. cbn [ctx2d]. rewrite for_loop_stripe. reflexivity. Qed.

Lemma INR_stripeCount : INR stripeCount = 14.
Proof. unfold stripeCount. rewrite INR_IZR_INZ. reflexivity. Qed.

Lemma stripe_rect_style (i : nat) : style (stripe_rect i) = band_color i.
Proof.
  unfold stripe_rect, band_color. cbn [style].
  replace (i mod 2 =? 0)%nat with (Nat.even i); [ reflexivity | ].
  destruct (Nat.even i) eqn:He.
  - apply Nat.even_spec in He. destruct He as [k ->].
    rewrite Nat.mul_comm, Nat.Div0.mod_mul. reflexivity.
  - assert (Ho : Nat.odd i = true) by (unfold Nat.odd; rewrite He; reflexivity).
    apply Nat.odd_spec in Ho. destruct Ho as [k ->].
    rewrite Nat.add_comm, Nat.mul_comm, Nat.Div0.mod_add. reflexivity.
Qed.

Lemma stripe_rect_rows (i : nat) :
  rect_x (stripe_rect i) = 0 /\
  rect_w (stripe_rect i) = 512 /\
  rect_y (stripe_rect i) = band_top i /\
  rect_y (stripe_rect i) + rect_h (stripe_rect i) = band_bottom i.
Proof.
  unfold stripe_rect, band_top, band_bottom, texSize.
  cbn [rect_x rect_y rect_w rect_h]. rewrite INR_stripeCount.
  repeat split; lra.
Qed.

Section Band.

(** A point [(px, py)] of the canvas inside band [i]. *)
Variable i : nat.
Variables px py : R.
Hypothesis px_in_canvas : 0 <= px < 512.
Hypothesis py_in_band : band_top i <= py < band_bottom i.

(** The point is covered by the rectangle of iteration [j] only when [j]
    is [i]: the rectangles before end at or above the band, the ones after
    start at or below its end. *)
Lemma covers_stripe_rect (j : nat) :
  covers (stripe_rect j) px py = (j =? i)%nat.
Proof.
  destruct (stripe_rect_rows j) as (Ex & Ew & Ey & Eh).
  unfold covers. rewrite Ex, Ew, Eh, Ey.
  unfold band_top, band_bottom in *.
  destruct (Nat.eqb_spec j i) as [-> | Hne].
  - destruct (Rle_dec 0 px); [ | lra ].
    destruct (Rlt_dec px (0 + 512)); [ | lra ].
    destruct (Rle_dec _ py); [ | lra ].
    destruct (Rlt_dec py _); [ reflexivity | lra ].
  - destruct (Nat.lt_ge_cases j i) as [Hlt | Hge].
    + assert (Hji : INR j + 1 <= INR i)
        by (rewrite <- S_INR; apply le_INR; lia).
      destruct (Rlt_dec py _) as [H | H]; [ lra | ].
      rewrite andb_false_r. reflexivity.
    + assert (Hij : INR i + 1 <= INR j)
        by (rewrite <- S_INR; apply le_INR; lia).
      destruct (Rle_dec (INR j * 512 / 14) py) as [H | H]; [ lra | ].
      rewrite andb_false_r. reflexivity.
Qed.

(** After the first [n] iterations the point has the colour of band [i]
    if iteration [i] is among them, and no colour yet otherwise. *)
Lemma colorAt_stripes (n : nat) :
  fold_left (fun acc r => if covers r px py then Some (style r) else acc)
    (map stripe_rect (seq 0 n)) None
  = if (i <? n)%nat then Some (band_color i) else None.
Proof.
  induction n as [ | n IH].
  - reflexivity.
  - rewrite seq_S, map_app, fold_left_app, IH. cbn [Nat.add map fold_left].
    rewrite (covers_stripe_rect n).
    destruct (Nat.eqb_spec n i) as [-> | Hne].
    + rewrite stripe_rect_style.
      replace (i <? S i)%nat with true by (symmetry; apply Nat.ltb_lt; lia).
      reflexivity.
    + destruct (Nat.ltb_spec i n) as [Hlt | Hge].
      * replace (i <? S n)%nat with true by (symmetry; apply Nat.ltb_lt; lia).
        reflexivity.
      * replace (i <? S n)%nat with false by (symmetry; apply Nat.ltb_ge; lia).
        reflexivity.
Qed.

End Band.

(** C8.  The canvas is 512 by 512; the loop fills exactly 14 rectangles;
    rectangle [i] spans the full width, from row [i * 512 / 14] to row
    [(i + 1) * 512 / 14], in light green for even [i] and dark green for
    odd [i], so every point of band [i] has that colour; the texture
    repeats along both axes. *)
Theorem striped_texture_bands :
  width (image texture) = 512%Z /\
  height (image texture) = 512%Z /\
  List.length (filled (ctx2d (image texture))) = 14%nat /\
  (forall i, (i < 14)%nat ->
     exists r,
       nth_error (filled (ctx2d (image texture))) i = Some r /\
       style r = (if Nat.even i then "#0b8a25" else "#033d0b")%string /\
       rect_x r = 0 /\ rect_w r = 512 /\
       rect_y r = INR i * 512 / 14 /\
       rect_y r + rect_h r = (INR i + 1) * 512 / 14) /\
  (forall i px py, (i < 14)%nat ->
     0 <= px < 512 ->
     INR i * 512 / 14 <= py < (INR i + 1) * 512 / 14 ->
     colorAt (ctx2d (image texture)) px py =
       Some (if Nat.even i then "#0b8a25" else "#033d0b")%string) /\
  wrapS texture = RepeatWrapping /\
  wrapT texture = RepeatWrapping.
Proof.
  change (image texture) with canvas.
  split; [ reflexivity | ]. split; [ reflexivity | ].
  split; [ rewrite canvas_filled, length_map, length_seq; reflexivity | ].
  split; [ | split; [ | split; reflexivity ] ].
  - intros i Hi. exists (stripe_rect i).
    destruct (stripe_rect_rows i) as (Ex & Ew & Ey & Eh).
    split; [ | split; [ apply stripe_rect_style | auto ] ].
    rewrite canvas_filled.
    rewrite nth_error_map, nth_error_seq.
    replace (i <? stripeCount)%nat with true
      by (symmetry; apply Nat.ltb_lt; exact Hi).
    reflexivity.
  - intros i px py Hi Hx Hy. unfold colorAt. rewrite canvas_filled.
    rewrite (colorAt_stripes i px py Hx Hy stripeCount).
    replace (i <? stripeCount)%nat with true
      by (symmetry; apply Nat.ltb_lt; exact Hi).
    reflexivity.
Qed.

(** ** Normalisation of the loaded object *)

Section Placement.

(** An object at [p], scaled uniformly by a factor [k] that is not
    negative. *)
Variable p : Vector3.t.
Variable k : R.
Hypothesis k_nonneg : 0 <= k.

Lemma Rmin_place (c a b : R) : Rmin (c + k * a) (c + k * b) = c + k * Rmin a b.
Proof.
  unfold Rmin.
  destruct (Rle_dec (c + k * a) (c + k * b)); destruct (Rle_dec a b); nra.
Qed.

Lemma Rmax_place (c a b : R) : Rmax (c + k * a) (c + k * b) = c + k * Rmax a b.
Proof.
  unfold Rmax.
  destruct (Rle_dec (c + k * a) (c + k * b)); destruct (Rle_dec a b); nra.
Qed.

Lemma expandByPoint_place (b : Box3) (v : Vector3.t) :
  expandByPoint (placeBox p k b)
    (Vector3.add p (Vector3.multiply (Vector3.setScalar k) v))
  = placeBox p k (expandByPoint b v).
Proof.
  destruct b as [ | mn mx]; cbn [placeBox expandByPoint].
  - reflexivity.
  - vec_simpl. rewrite !Rmin_place, !Rmax_place. reflexivity.
Qed.

Lemma fold_expand_place (vs : list Vector3.t) :
  forall b,
    fold_left expandByPoint
      (map (fun v => Vector3.add p (Vector3.multiply (Vector3.setScalar k) v)) vs)
      (placeBox p k b)
    = placeBox p k (fold_left expandByPoint vs b).
Proof.
  induction vs as [ | v vs IH]; intros b; cbn [map fold_left].
  - reflexivity.
  - rewrite expandByPoint_place. apply IH.
Qed.

(** The box of the placed object is the placed box of its vertices. *)
Lemma setFromObject_place (vs : list Vector3.t) :
  setFromObject (mkObject3D p (Vector3.setScalar k) vs)
  = placeBox p k (localBox vs).
Proof.
  unfold setFromObject, localBox, localToWorld.
  cbn [position scale vertices].
  apply (fold_expand_place vs EmptyBox).
Qed.

Lemma Math_max3_scale (a b c : R) :
  Math_max3 (k * a) (k * b) (k * c) = k * Math_max3 a b c.
Proof.
  unfold Math_max3. rewrite !RmaxRmult by exact k_nonneg. reflexivity.
Qed.

Lemma largestDimension_place (b : Box3) :
  largestDimension (placeBox p k b) = k * largestDimension b.
Proof.
  unfold largestDimension.
  destruct b as [ | mn mx]; cbn [placeBox getSize].
  - unfold Math_max3. vec_simpl. minmax. lra.
  - rewrite <- Math_max3_scale. vec_simpl. f_equal; lra.
Qed.

End Placement.

Lemma expandByPoint_ordered (b : Box3) (v : Vector3.t) :
  ordered b -> ordered (expandByPoint b v).
Proof.
  destruct b as [ | mn mx]; cbn [expandByPoint ordered].
  - intros _. repeat split; apply Rle_refl.
  - intros (Hx & Hy & Hz). vec_simpl.
    repeat split;
      (eapply Rle_trans; [ apply Rmin_l | ];
       eapply Rle_trans; [ | apply Rmax_l ]; assumption).
Qed.

Lemma fold_expand_ordered (vs : list Vector3.t) :
  forall b, ordered b -> ordered (fold_left expandByPoint vs b).
Proof.
  induction vs as [ | v vs IH]; intros b Hb; cbn [fold_left].
  - exact Hb.
  - apply IH, expandByPoint_ordered, Hb.
Qed.

Lemma localBox_ordered (vs : list Vector3.t) : ordered (localBox vs).
Proof. apply fold_expand_ordered. exact I. Qed.

(** The largest dimension of a box is never negative. *)
Lemma largestDimension_nonneg (b : Box3) : ordered b -> 0 <= largestDimension b.
Proof.
  unfold largestDimension, Math_max3.
  destruct b as [ | mn mx]; cbn [getSize ordered].
  - intros _. vec_simpl. minmax. lra.
  - intros (Hx & Hy & Hz). vec_simpl.
    eapply Rle_trans; [ | apply Rmax_l ].
    eapply Rle_trans; [ | apply Rmax_l ]. lra.
Qed.

Lemma largestDimension_empty : largestDimension EmptyBox = 0.
Proof.
  unfold largestDimension, Math_max3. cbn [getSize]. vec_simpl. minmax.
  reflexivity.
Qed.

(** [maxDim] is the largest dimension, or 1 when that is 0. *)
Lemma maxDim_cases (obj : Object3D) :
  (largestDimension (setFromObject obj) = 0 /\ maxDim obj = 1) \/
  (largestDimension (setFromObject obj) <> 0 /\
   maxDim obj = largestDimension (setFromObject obj)).
Proof.
  unfold maxDim, largestDimension, or_default.
  destruct (Req_dec_T _ 0) as [H0 | Hn0]; [ left | right ]; split; auto.
Qed.

(** *** The object as the loader yields it *)

Lemma setFromObject_loaded (vs : list Vector3.t) :
  setFromObject (loaded vs) = placeBox Vector3.zero 1 (localBox vs).
Proof. apply setFromObject_place. lra. Qed.

Lemma largestDimension_loaded (vs : list Vector3.t) :
  largestDimension (setFromObject (loaded vs)) = largestDimension (localBox vs).
Proof.
  rewrite setFromObject_loaded, largestDimension_place by lra. lra.
Qed.

(** The scale factor is positive. *)
Lemma scaleFactor_loaded_pos (vs : list Vector3.t) : 0 < scaleFactor (loaded vs).
Proof.
  unfold scaleFactor.
  pose proof (largestDimension_nonneg _ (localBox_ordered vs)) as Hd.
  rewrite <- largestDimension_loaded in Hd.
  destruct (maxDim_cases (loaded vs)) as [[_ ->] | [Hn ->]].
  - lra.
  - apply Rdiv_lt_0_compat; lra.
Qed.

Lemma scaleFactor_loaded (vs : list Vector3.t) :
  largestDimension (localBox vs) <> 0 ->
  scaleFactor (loaded vs) * largestDimension (localBox vs) = 3.
Proof.
  intros Hn. unfold scaleFactor.
  destruct (maxDim_cases (loaded vs)) as [[H0 _] | [_ ->]];
    rewrite largestDimension_loaded in *.
  - contradiction.
  - field. exact Hn.
Qed.

(** The object that [onLoad] returns for the loader's object. *)
Lemma onLoad_loaded (vs : list Vector3.t) :
  let k := scaleFactor (loaded vs) in
  let center := getCenter (placeBox Vector3.zero k (localBox vs)) in
  onLoad (loaded vs) =
    mkObject3D (Vector3.set_y (-0.5) (Vector3.sub Vector3.zero center))
      (Vector3.setScalar k) vs.
Proof.
  cbv zeta. unfold onLoad. cbn [position scale vertices loaded].
  rewrite setFromObject_place
    by (apply Rlt_le, (scaleFactor_loaded_pos vs)).
  reflexivity.
Qed.

(** The box of the object that [onLoad] returns keeps the proportions of
    the loaded box: its largest dimension is the loaded one times the
    scale factor. *)
Lemma onLoad_largestDimension (vs : list Vector3.t) :
  largestDimension (setFromObject (onLoad (loaded vs)))
  = scaleFactor (loaded vs) * largestDimension (localBox vs).
Proof.
  pose proof (scaleFactor_loaded_pos vs) as Hk.
  rewrite onLoad_loaded. cbv zeta.
  rewrite setFromObject_place, largestDimension_place by lra.
  reflexivity.
Qed.

(** *** Two loaded objects *)

Lemma localBox_unit_cube :
  localBox unit_cube = Box (Vector3.mk 0 0 0) (Vector3.mk 1 1 1).
Proof.
  unfold localBox, unit_cube. cbn [fold_left expandByPoint].
  vec_simpl. minmax. reflexivity.
Qed.

Lemma largestDimension_unit_cube : largestDimension (localBox unit_cube) = 1.
Proof.
  rewrite localBox_unit_cube. unfold largestDimension, Math_max3.
  cbn [getSize]. vec_simpl. minmax. lra.
Qed.

Lemma scaleFactor_unit_cube : scaleFactor (loaded unit_cube) = 3.
Proof.
  pose proof (scaleFactor_loaded unit_cube) as H.
  rewrite largestDimension_unit_cube in H. lra.
Qed.

(** C4.  The callback on the unit cube with a corner at its origin: line
    112 subtracts the centre (1.5, 1.5, 1.5) of the scaled box from the
    position and line 113 then assigns -0.5 to the height of the position,
    over the height that line 112 had just set.  The cube is scaled by 3
    and its box ends between (-1.5, -0.5, -1.5) and (1.5, 2.5, 1.5): the
    largest dimension is 3, and the centre is at (0, 1, 0), not at
    (0, -0.5, 0). *)
Lemma onLoad_centre_not_at_rest_height :
  let obj := onLoad (loaded unit_cube) in
  setFromObject obj =
    Box (Vector3.mk (-1.5) (-0.5) (-1.5)) (Vector3.mk 1.5 2.5 1.5) /\
  largestDimension (setFromObject obj) = 3 /\
  getCenter (setFromObject obj) = Vector3.mk 0 1 0 /\
  getCenter (setFromObject obj) <> Vector3.mk 0 (-0.5) 0.
Proof.
  cbv zeta.
  assert (Hb : setFromObject (onLoad (loaded unit_cube)) =
               Box (Vector3.mk (-1.5) (-0.5) (-1.5)) (Vector3.mk 1.5 2.5 1.5)).
  { rewrite onLoad_loaded. cbv zeta.
    rewrite scaleFactor_unit_cube, setFromObject_place by lra.
    rewrite localBox_unit_cube. cbn [placeBox getCenter]. vec_simpl.
    f_equal; f_equal; lra. }
  rewrite Hb. split; [ reflexivity | ].
  unfold largestDimension, Math_max3. cbn [getSize getCenter]. vec_simpl.
  split; [ minmax; lra | ].
  assert (Hc : Vector3.mk ((-1.5 + 1.5) * 0.5) ((-0.5 + 2.5) * 0.5)
                 ((-1.5 + 1.5) * 0.5) = Vector3.mk 0 1 0)
    by (f_equal; lra).
  rewrite Hc. split; [ reflexivity | ].
  intros H. injection H as H. lra.
Qed.

(** A single vertex: the guard [|| 1] keeps the scale factor at 3, and
    the largest dimension of the box stays 0. *)
Lemma onLoad_single_vertex :
  let obj := onLoad (loaded [Vector3.mk 1 2 3]) in
  scaleFactor (loaded [Vector3.mk 1 2 3]) = 3 /\
  largestDimension (setFromObject obj) = 0.
Proof.
  cbv zeta.
  assert (Hd : largestDimension (localBox [Vector3.mk 1 2 3]) = 0).
  { unfold largestDimension, localBox, Math_max3.
    cbn [fold_left expandByPoint getSize]. vec_simpl. minmax. lra. }
  assert (Hk : scaleFactor (loaded [Vector3.mk 1 2 3]) = 3).
  { unfold scaleFactor.
    destruct (maxDim_cases (loaded [Vector3.mk 1 2 3]))
      as [[_ ->] | [Hn _]]; [ lra | ].
    rewrite largestDimension_loaded in Hn. contradiction. }
  split; [ exact Hk | ].
  rewrite onLoad_largestDimension, Hd. lra.
Qed.

(** C9.  The divisor [maxDim] is the largest dimension of the box, or 1
    when that is 0, so it is never 0 and the quotient [3 / maxDim], which
    is the scale applied, is a finite number; when the largest dimension is
    0 the scale is 3, where the quotient by the largest dimension itself
    would not be finite. *)
Theorem scale_divisor_never_zero (obj : Object3D) :
  maxDim obj =
    (if Req_dec_T (largestDimension (setFromObject obj)) 0 then 1
     else largestDimension (setFromObject obj)) /\
  maxDim obj <> 0 /\
  finite_quotient 3 (maxDim obj) = Some (scaleFactor obj) /\
  scale (onLoad obj) = Vector3.setScalar (scaleFactor obj) /\
  (largestDimension (setFromObject obj) = 0 ->
   maxDim obj = 1 /\ scaleFactor obj = 3 /\
   finite_quotient 3 (largestDimension (setFromObject obj)) = None).
Proof.
  assert (Hm : maxDim obj <> 0).
  { destruct (maxDim_cases obj) as [[_ ->] | [Hn ->]]; [ lra | exact Hn ]. }
  split; [ reflexivity | ]. split; [ exact Hm | ].
  split.
  { unfold finite_quotient, scaleFactor.
    destruct (Req_dec_T (maxDim obj) 0); [ contradiction | reflexivity ]. }
  split; [ reflexivity | ].
  intros H0. unfold scaleFactor, finite_quotient. rewrite H0.
  destruct (maxDim_cases obj) as [[_ ->] | [Hn _]]; [ | contradiction ].
  split; [ reflexivity | split; [ lra | ] ].
  destruct (Req_dec_T 0 0) as [_ | Hne]; [ reflexivity | contradiction ].
Qed.

(** An object without vertices has an empty box, of size 0. *)
Lemma scale_divisor_never_zero_witness :
  maxDim (loaded []) = 1 /\ scaleFactor (loaded []) = 3.
Proof.
  pose proof (proj2 (proj2 (proj2 (proj2
                (scale_divisor_never_zero (loaded [])))))) as H.
  rewrite largestDimension_loaded in H.
  destruct (H largestDimension_empty) as (H1 & H3 & _).
  split; [ exact H1 | exact H3 ].
Defined.

(** ** The drag on binary64 numbers *)

(** From rotation (0, 0), the drag from (100,100) to (150,100) gives the
    yaw 0.5 and the pitch 0, and the drag from (100,100) to (100,260) gives
    the pitch 0.8 (the binary64 number nearest to it), which is below
    [Math.PI / 3]. *)
Example binary64_drag_right :
  Binary64.drag_rotation 0 0 100 100 150 100 = (0, 0.5)%float.
Proof. reflexivity. Qed.

Example binary64_drag_down :
  Binary64.drag_rotation 0 0 100 100 100 260 = (0x1.999999999999ap-1, 0)%float /\
  (0x1.999999999999ap-1 <? Binary64.Math_PI / 3)%float = true.
Proof. split; reflexivity. Qed.

Section Binary64Facts.

Import Binary64.
Local Open Scope float_scope.

(** *** Rounding never yields NaN *)

(** Shifting a mantissa that is not negative to the right leaves it so. *)
Lemma shr_1_nonneg mrs : (0 <= shr_m mrs)%Z -> (0 <= shr_m (shr_1 mrs))%Z.
Proof.
  destruct mrs as [m r s]. cbn [shr_m].
  destruct m as [ | [q | q | ] | q]; cbn; lia.
Qed.

Lemma iter_pos_shr_1_nonneg n : forall mrs,
  (0 <= shr_m mrs)%Z -> (0 <= shr_m (iter_pos shr_1 n mrs))%Z.
Proof.
  induction n as [n IH | n IH | ]; intros mrs H; cbn [iter_pos].
  - apply IH, IH, shr_1_nonneg, H.
  - apply IH, IH, H.
  - apply shr_1_nonneg, H.
Qed.

Lemma shr_nonneg mrs e n : (0 <= shr_m mrs)%Z -> (0 <= shr_m (fst (shr mrs e n)))%Z.
Proof.
  intros H. unfold shr. destruct n; cbn [fst]; auto using iter_pos_shr_1_nonneg.
Qed.

Lemma shr_record_of_loc_m m l : shr_m (shr_record_of_loc m l) = m.
Proof. destruct l as [ | []]; reflexivity. Qed.

Lemma shr_fexp_nonneg prec emax m e l :
  (0 <= m)%Z -> (0 <= shr_m (fst (shr_fexp prec emax m e l)))%Z.
Proof.
  intros H. unfold shr_fexp. apply shr_nonneg. rewrite shr_record_of_loc_m. exact H.
Qed.

Lemma round_nearest_even_nonneg m l : (0 <= m)%Z -> (0 <= round_nearest_even m l)%Z.
Proof.
  intros H. unfold round_nearest_even.
  destruct l as [ | []]; try destruct (Z.even m); lia.
Qed.

(** Rounding a mantissa that is not negative gives a zero, a finite
    number or an infinity. *)
Lemma binary_round_aux_not_nan prec emax sx mx ex lx :
  (0 <= mx)%Z -> sf_is_nan (binary_round_aux prec emax sx mx ex lx) = false.
Proof.
  intros H. unfold binary_round_aux.
  pose proof (shr_fexp_nonneg prec emax mx ex lx H) as H1.
  destruct (shr_fexp prec emax mx ex lx) as [mrs' e']. cbn [fst] in H1.
  pose proof (shr_fexp_nonneg prec emax _ e' loc_Exact
                (round_nearest_even_nonneg _ (loc_of_shr_record mrs') H1)) as H2.
  destruct (shr_fexp prec emax _ e' loc_Exact) as [mrs'' e'']. cbn [fst] in H2.
  destruct (shr_m mrs'') as [ | q | q]; [ reflexivity | | lia ].
  destruct (Z.leb e'' (emax - prec)); reflexivity.
Qed.

Lemma binary_normalize_not_nan prec emax m e sz :
  sf_is_nan (binary_normalize prec emax m e sz) = false.
Proof.
  unfold binary_normalize, binary_round.
  destruct m as [ | q | q]; [ reflexivity | | ];
    destruct (shl_align _ _ _) as [mz ez];
    apply binary_round_aux_not_nan; lia.
Qed.

(** The difference of two finite numbers, the product of a number with a
    finite non-zero one and the sum of a finite number with a number are
    numbers: they may be infinite, they are not NaN. *)
Lemma SFsub_finite prec emax a b :
  sf_is_finite a = true -> sf_is_finite b = true ->
  sf_is_nan (SFsub prec emax a b) = false.
Proof.
  destruct a as [sa | sa | | sa ma ea], b as [sb | sb | | sb mb eb];
    try discriminate; intros _ _; cbn [SFsub].
  - destruct sa, sb; reflexivity.
  - reflexivity.
  - reflexivity.
  - apply binary_normalize_not_nan.
Qed.

Lemma SFmul_finite_r prec emax a b :
  sf_is_nan a = false ->
  (exists s m e, b = S754_finite s m e) ->
  sf_is_nan (SFmul prec emax a b) = false.
Proof.
  intros Ha (s & m & e & ->).
  destruct a as [sa | sa | | sa ma ea]; try discriminate; cbn [SFmul];
    try reflexivity.
  apply binary_round_aux_not_nan. lia.
Qed.

Lemma SFadd_finite_l prec emax a b :
  sf_is_finite a = true -> sf_is_nan b = false ->
  sf_is_nan (SFadd prec emax a b) = false.
Proof.
  destruct a as [sa | sa | | sa ma ea], b as [sb | sb | | sb mb eb];
    try discriminate; intros _ _; cbn [SFadd]; try reflexivity.
  - destruct sa, sb; reflexivity.
  - apply binary_normalize_not_nan.
Qed.

(** *** Comparisons *)

(** Two numbers are always comparable, and comparing them the other way
    round gives the opposite answer. *)
Lemma SFcompare_refl a : sf_is_nan a = false -> SFcompare a a = Some Eq.
Proof.
  destruct a as [s | s | | s m e]; try discriminate; intros _; cbn.
  - reflexivity.
  - destruct s; reflexivity.
  - rewrite Z.compare_refl, Pos.compare_cont_refl. destruct s; reflexivity.
Qed.

Lemma SFcompare_antisym a b :
  SFcompare b a = option_map CompOpp (SFcompare a b).
Proof.
  destruct a as [sa | sa | | sa ma ea], b as [sb | sb | | sb mb eb]; cbn;
    try reflexivity;
    try (destruct sa; reflexivity); try (destruct sb; reflexivity);
    try (destruct sa, sb; reflexivity).
  destruct sa, sb; try reflexivity.
  all: rewrite (Z.compare_antisym eb ea).
  all: destruct (Z.compare eb ea) eqn:E; cbn; try reflexivity.
  all: rewrite (Pos.compare_cont_antisym ma mb Eq); cbn [CompOpp].
  all: try rewrite CompOpp_involutive; reflexivity.
Qed.

(** [is_nan] and [is_finite] read on the specification of a float. *)
Lemma is_nan_spec x : is_nan x = sf_is_nan (Prim2SF x).
Proof.
  unfold is_nan. rewrite eqb_spec. unfold SFeqb.
  destruct (sf_is_nan (Prim2SF x)) eqn:E.
  - destruct (Prim2SF x); try discriminate. reflexivity.
  - rewrite SFcompare_refl by exact E. reflexivity.
Qed.

Lemma is_finite_spec x : is_finite x = sf_is_finite (Prim2SF x).
Proof.
  unfold is_finite, is_infinity. rewrite is_nan_spec, eqb_spec, abs_spec.
  change (Prim2SF infinity) with (S754_infinity false).
  destruct (Prim2SF x) as [s | s | | s m e]; reflexivity.
Qed.

(** [<?] and [<=?] on numbers: one of [a < b] and [b <= a] holds. *)
Lemma ltb_leb a b : (a <? b)%float = true -> (a <=? b)%float = true.
Proof.
  rewrite ltb_spec, leb_spec. unfold SFltb, SFleb.
  destruct (SFcompare _ _) as [[ | | ] | ]; congruence.
Qed.

Lemma ltb_false_leb a b :
  is_nan a = false -> is_nan b = false ->
  (a <? b)%float = false -> (b <=? a)%float = true.
Proof.
  rewrite !is_nan_spec, ltb_spec, leb_spec. unfold SFltb, SFleb.
  rewrite (SFcompare_antisym (Prim2SF a) (Prim2SF b)).
  destruct (Prim2SF a) as [sa | sa | | sa ma ea], (Prim2SF b) as [sb | sb | | sb mb eb];
    try discriminate; intros _ _;
    destruct (SFcompare _ _) as [[ | | ] | ] eqn:E; cbn; try congruence;
    cbn in E; discriminate.
Qed.

(** *** The clamp and the drag *)

(** The clamp of a number is in range. *)
Lemma binary64_clamp_in_range (v : float) :
  is_nan v = false ->
  in_range (Math_max (- Math_PI / 3) (Math_min (Math_PI / 3) v)) = true.
Proof.
  intros Hv.
  set (hi := Math_PI / 3). set (lo := - Math_PI / 3).
  assert (Hhi : is_nan hi = false) by reflexivity.
  assert (Hlo : is_nan lo = false) by reflexivity.
  assert (Hw : exists w, Math_min hi v = w /\ is_nan w = false /\ (w <=? hi) = true).
  { unfold Math_min. rewrite Hhi, Hv. cbn [orb].
    destruct (hi <? v) eqn:E1.
    - exists hi. repeat split; reflexivity.
    - exists v. split.
      + destruct (v <? hi); reflexivity.
      + split; [ exact Hv | apply ltb_false_leb; assumption ]. }
  destruct Hw as (w & -> & Hwn & Hwh).
  unfold Math_max. rewrite Hlo, Hwn. cbn [orb].
  destruct (lo <? w) eqn:E2.
  - unfold in_range. fold lo hi. rewrite (ltb_leb _ _ E2), Hwh. reflexivity.
  - replace (if w <? lo then lo else if is_neg_zero lo then w else lo)
      with lo by (destruct (w <? lo); reflexivity).
    reflexivity.
Qed.

(** A pitch in range is a finite number. *)
Lemma in_range_finite (v : float) : in_range v = true -> is_finite v = true.
Proof.
  unfold in_range. rewrite is_finite_spec, !leb_spec.
  intros H. apply andb_prop in H. destruct H as [H1 H2].
  destruct (Prim2SF v) as [s | [ | ] | | s m e]; try reflexivity.
  - vm_compute in H1. discriminate.
  - vm_compute in H2. discriminate.
  - vm_compute in H1. discriminate.
Qed.

(** One move between finite coordinates keeps the pitch in range: the
    sum given to the clamp is a number. *)
Lemma binary64_drag_keeps_pitch_in_range (rot_x rot_y lastX lastY x y : float) :
  is_finite lastY = true ->
  is_finite y = true ->
  in_range rot_x = true ->
  in_range (fst (drag_rotation rot_x rot_y lastX lastY x y)) = true.
Proof.
  intros HlastY Hy Hrot. unfold drag_rotation. cbn [fst].
  apply binary64_clamp_in_range.
  apply in_range_finite in Hrot.
  rewrite is_finite_spec in HlastY, Hy, Hrot.
  rewrite is_nan_spec, add_spec, mul_spec, sub_spec.
  apply SFadd_finite_l; [ exact Hrot | ].
  apply SFmul_finite_r.
  - apply SFsub_finite; assumption.
  - vm_compute. eauto.
Qed.

(** Along a press and any moves with finite coordinates, the pitch stays
    between [-Math.PI / 3] and [Math.PI / 3], also when a difference or a
    sum overflows. *)
Lemma binary64_drag_path_in_range (moves : list (float * float)) :
  forall rot last,
    in_range (fst rot) = true ->
    finite_xy last = true ->
    forallb finite_xy moves = true ->
    in_range (fst (drag_path rot last moves)) = true.
Proof.
  induction moves as [ | [x y] moves IH]; intros rot last Hrot Hlast Hmoves;
    cbn [drag_path].
  - exact Hrot.
  - cbn [forallb] in Hmoves. apply andb_prop in Hmoves.
    destruct Hmoves as [Hxy Hmoves].
    unfold finite_xy in Hlast, Hxy. cbn [fst snd] in Hxy.
    apply andb_prop in Hlast. destruct Hlast as [_ HlastY].
    pose proof Hxy as Hxy'. apply andb_prop in Hxy'. destruct Hxy' as [_ Hy].
    apply IH; [ | exact Hxy | exact Hmoves ].
    apply binary64_drag_keeps_pitch_in_range; assumption.
Qed.

(** A press at (100,100), a move down, a move far down and a move whose
    difference to the one before overflows. *)
Lemma binary64_drag_path_in_range_witness :
  in_range
    (fst (drag_path (0, 0) (100, 100)
            [ (100, 260); (100, 900); (100, -0x1p+1023); (100, 0x1p+1023) ]))
  = true.
Proof.
  apply (binary64_drag_path_in_range
           [ (100, 260); (100, 900); (100, -0x1p+1023); (100, 0x1p+1023) ]
           (0, 0) (100, 100));
    reflexivity.
Defined.

End Binary64Facts.

(** * Further properties of the listeners and the render loop *)

(** ** The drag suspends the spin *)

Lemma drag_state_eq (s1 s2 : Viewer) :
  drag_state s1 = drag_state s2 ->
  rotation_x s1 = rotation_x s2 /\ rotation_y s1 = rotation_y s2 /\
  lastX s1 = lastX s2 /\ lastY s1 = lastY s2.
Proof.
  unfold drag_state. intros H. injection H as Hx Hy HlX HlY.
  repeat split; assumption.
Qed.

Lemma step_drag (s1 s2 : Viewer) (op : Op) :
  isDragging s1 = true -> isDragging s2 = true ->
  drag_state s1 = drag_state s2 ->
  within_gesture op = true ->
  let s2' := if is_readable_move op then step s2 op else s2 in
  isDragging (step s1 op) = true /\ isDragging s2' = true /\
  drag_state (step s1 op) = drag_state s2'.
Proof.
  intros Hd1 Hd2 Hs Hop. cbv zeta.
  destruct (drag_state_eq s1 s2 Hs) as (Hx & Hy & HlX & HlY).
  destruct op as [ty e | | w h]; cbn [step is_readable_move].
  - destruct ty; try discriminate Hop; cbn [listener].
    all: destruct (getXY e) as [p | ] eqn:Hxy;
      [ rewrite (onPointerMove_dragging e s1 p Hd1 Hxy),
                (onPointerMove_dragging e s2 p Hd2 Hxy);
        unfold drag_state;
        cbn [snd isDragging rotation_x rotation_y lastX lastY];
        rewrite Hx, Hy, HlX, HlY; repeat split; reflexivity
      | unfold onPointerMove; rewrite Hd1, Hxy; cbn [negb snd];
        repeat split; assumption ].
  - unfold animate. rewrite Hd1. cbn [negb].
    repeat split; assumption.
  - repeat split; assumption.
Qed.

(** While a drag lasts (moves, frames and resizes, no press and no
    release) the state stays dragging, and the frames, the resizes and the
    moves whose coordinates cannot be read change neither rotation nor the
    stored coordinates: all four are what the readable moves alone, in the
    same order, lead to.  The spin of [animate] is suspended for the whole
    drag. *)
Theorem drag_suspends_spin (s : Viewer) (ops : list Op) :
  isDragging s = true ->
  forallb within_gesture ops = true ->
  isDragging (run ops s) = true /\
  drag_state (run ops s) = drag_state (run (filter is_readable_move ops) s).
Proof.
  intros Hd Hops.
  assert (H : forall s1 s2,
             isDragging s1 = true -> isDragging s2 = true ->
             drag_state s1 = drag_state s2 ->
             isDragging (run ops s1) = true /\
             drag_state (run ops s1)
             = drag_state (run (filter is_readable_move ops) s2)).
  { clear s Hd. induction ops as [ | op ops IH]; intros s1 s2 Hd1 Hd2 Hs.
    - split; [ exact Hd1 | exact Hs ].
    - cbn [forallb] in Hops. apply andb_prop in Hops.
      destruct Hops as [Hop Hops].
      destruct (step_drag s1 s2 op Hd1 Hd2 Hs Hop) as (Hd1' & Hd2' & Hs').
      cbn [run fold_left filter]. fold (run ops (step s1 op)).
      destruct (is_readable_move op).
      + cbn [fold_left]. fold (run (filter is_readable_move ops) (step s2 op)).
        apply (IH Hops); assumption.
      + fold (run (filter is_readable_move ops) s2).
        apply (IH Hops); assumption. }
  apply H; [ exact Hd | exact Hd | reflexivity ].
Qed.

(** A drag in progress at (100,100): two moves, with a frame, a touch move
    with no finger and a resize in between. *)
Lemma drag_suspends_spin_witness :
  let s := snd (onPointerDown (Event.mouse 100 100) (mount 800 600)) in
  let ops :=
    [ Dispatch mousemove (Event.mouse 130 90); AnimationFrame;
      Dispatch touchmove (Event.touch []); Resize 640 480;
      Dispatch touchmove (Event.touch [Touch.mk 90 400]) ] in
  isDragging (run ops s) = true /\
  drag_state (run ops s) =
    drag_state (run [ Dispatch mousemove (Event.mouse 130 90);
                      Dispatch touchmove (Event.touch [Touch.mk 90 400]) ] s).
Proof.
  cbv zeta.
  apply (drag_suspends_spin
           (snd (onPointerDown (Event.mouse 100 100) (mount 800 600)))
           [ Dispatch mousemove (Event.mouse 130 90); AnimationFrame;
             Dispatch touchmove (Event.touch []); Resize 640 480;
             Dispatch touchmove (Event.touch [Touch.mk 90 400]) ]);
    reflexivity.
Defined.

(** ** A press that throws *)

(** A [touchstart] whose touch list is empty throws, and has by then set
    [isDragging]: the state is dragging with the last coordinates of the
    gesture before, so the next move turns the model by its distance from
    those. *)
Theorem press_without_touch_starts_drag (e : Event.t) (p : XY) (s : Viewer) :
  getXY e = Return p ->
  let s1 := snd (listener touchstart (Event.touch []) s) in
  let s2 := snd (listener touchmove e s1) in
  fst (listener touchstart (Event.touch []) s) = ThrowTypeError /\
  isDragging s1 = true /\
  lastX s1 = lastX s /\ lastY s1 = lastY s /\
  rotation_x s1 = rotation_x s /\ rotation_y s1 = rotation_y s /\
  rotation_y s2 = rotation_y s + (x p - lastX s) * 0.01 /\
  rotation_x s2 = clamp_pitch (rotation_x s + (y p - lastY s) * 0.005).
Proof.
  intros Hxy. cbv zeta. cbn [listener].
  destruct (listeners_on_empty_touches s) as [Hdown _]. rewrite Hdown.
  cbn [fst snd].
  rewrite (onPointerMove_dragging e _ p); [ | reflexivity | exact Hxy ].
  cbn [snd set_isDragging isDragging lastX lastY rotation_x rotation_y].
  repeat split; reflexivity.
Qed.

(** After a drag that ended at (300,300), a touch at (10,10) whose press
    came without touches turns the yaw by -2.9. *)
Lemma press_without_touch_starts_drag_witness :
  let s :=
    run [ Dispatch mousedown (Event.mouse 300 300);
          Dispatch mouseup (Event.mouse 300 300) ] (mount 800 600) in
  let s1 := snd (listener touchstart (Event.touch []) s) in
  let s2 := snd (listener touchmove (Event.touch [Touch.mk 10 10]) s1) in
  isDragging s1 = true /\
  rotation_y s2 = rotation_y s + (10 - 300) * 0.01.
Proof.
  cbv zeta.
  pose proof (press_without_touch_starts_drag
                (Event.touch [Touch.mk 10 10]) (mkXY 10 10)
                (run [ Dispatch mousedown (Event.mouse 300 300);
                       Dispatch mouseup (Event.mouse 300 300) ]
                   (mount 800 600))
                eq_refl) as H.
  cbv zeta in H. destruct H as (_ & Hd & _ & _ & _ & _ & Hy & _).
  split; [ exact Hd | exact Hy ].
Defined.

(** ** The idle spin *)

Lemma step_idle (s : Viewer) (op : Op) :
  isDragging s = false ->
  is_press op = false ->
  isDragging (step s op) = false /\
  rotation_x (step s op) = rotation_x s /\
  rotation_y (step s op) =
    (if is_frame op then spin (rotation_y s) else rotation_y s) /\
  lastX (step s op) = lastX s /\ lastY (step s op) = lastY s.
Proof.
  intros Hd Hop. destruct op as [ty e | | w h]; cbn [step is_frame].
  - destruct ty; try discriminate Hop; cbn [listener];
      try rewrite (onPointerMove_idle e s Hd);
      cbn [onPointerUp snd set_isDragging isDragging rotation_x rotation_y
           lastX lastY];
      repeat split; solve [ reflexivity | assumption ].
  - unfold animate, spin. rewrite Hd.
    cbn [negb renderer_render set_rotation_y isDragging rotation_x rotation_y
         lastX lastY].
    repeat split; solve [ reflexivity | assumption ].
  - cbn. repeat split; solve [ reflexivity | assumption ].
Qed.

Lemma iter_spin (n : nat) (yaw : R) :
  Nat.iter n spin (spin yaw) = Nat.iter (S n) spin yaw.
Proof. symmetry. apply Nat.iter_succ_r. Qed.

(** From an idle state, a run without a press stays idle; moves, releases
    and resizes change neither rotation; every frame of the run applies
    [rotation.y += 0.005] once, so the yaw is the one reached by that many
    additions, one after the other; the pitch and the stored coordinates
    are as before. *)
Theorem idle_run_spins_per_frame (s : Viewer) (ops : list Op) :
  isDragging s = false ->
  forallb (fun op => negb (is_press op)) ops = true ->
  isDragging (run ops s) = false /\
  rotation_x (run ops s) = rotation_x s /\
  rotation_y (run ops s) = Nat.iter (count_frames ops) spin (rotation_y s) /\
  lastX (run ops s) = lastX s /\ lastY (run ops s) = lastY s.
Proof.
  revert s. induction ops as [ | op ops IH]; intros s Hd Hops.
  - cbn. repeat split; assumption.
  - cbn [forallb] in Hops. apply andb_prop in Hops. destruct Hops as [Hop Hops].
    apply negb_true_iff in Hop.
    destruct (step_idle s op Hd Hop) as (Hd' & Hx & Hy & HlX & HlY).
    destruct (IH (step s op) Hd' Hops) as (Hd'' & Hx' & Hy' & HlX' & HlY').
    cbn [run fold_left]. fold (run ops (step s op)).
    rewrite Hx', Hy', HlX', HlY', Hx, Hy, HlX, HlY.
    split; [ exact Hd'' | ]. split; [ reflexivity | ].
    split; [ | split; reflexivity ].
    unfold count_frames. cbn [filter].
    destruct (is_frame op); cbn [List.length].
    + fold (count_frames ops). apply iter_spin.
    + fold (count_frames ops). reflexivity.
Qed.

(** Three frames among a move, a release and a resize: three additions. *)
Lemma idle_run_spins_per_frame_witness :
  let ops :=
    [ AnimationFrame; Dispatch mousemove (Event.mouse 5 700);
      Dispatch touchend (Event.touch []); AnimationFrame; Resize 300 200;
      AnimationFrame ] in
  rotation_x (run ops (mount 800 600)) = rotation_x (mount 800 600) /\
  rotation_y (run ops (mount 800 600)) =
    spin (spin (spin (rotation_y (mount 800 600)))).
Proof.
  cbv zeta.
  pose proof (idle_run_spins_per_frame (mount 800 600)
                [ AnimationFrame; Dispatch mousemove (Event.mouse 5 700);
                  Dispatch touchend (Event.touch []); AnimationFrame;
                  Resize 300 200; AnimationFrame ]
                eq_refl eq_refl) as H.
  destruct H as (_ & Hx & Hy & _). split; [ exact Hx | exact Hy ].
Defined.

(** ** The frames drawn *)

Lemma step_frames (s : Viewer) (op : Op) :
  frames (step s op) =
    if is_frame op
    then mkFrame (rotation_x s) (rotation_y (step s op)) :: frames s
    else frames s.
Proof.
  destruct op as [ty e | | w h]; cbn [step is_frame].
  - destruct ty; cbn [listener]; unfold onPointerDown, onPointerMove, onPointerUp;
      destruct (getXY e); destruct (isDragging s); reflexivity.
  - unfold animate. destruct (isDragging s); reflexivity.
  - reflexivity.
Qed.

(** Every frame of a run is drawn with the pitch in range, when the frames
    before the run were and the pitch is, and the run draws exactly one
    frame for each animation frame: no listener draws. *)
Theorem frames_drawn_in_range (s : Viewer) (ops : list Op) :
  pitch_in_range s ->
  Forall frame_in_range (frames s) ->
  Forall frame_in_range (frames (run ops s)) /\
  List.length (frames (run ops s)) =
    (List.length (frames s) + count_frames ops)%nat.
Proof.
  revert s. induction ops as [ | op ops IH]; intros s Hs Hf.
  - cbn. split; [ exact Hf | lia ].
  - cbn [run fold_left]. fold (run ops (step s op)).
    assert (Hf' : Forall frame_in_range (frames (step s op))).
    { rewrite step_frames. destruct (is_frame op); [ | exact Hf ].
      constructor; [ exact Hs | exact Hf ]. }
    destruct (IH (step s op) (step_pitch s op Hs) Hf') as [Hall Hlen].
    split; [ exact Hall | ].
    rewrite Hlen, step_frames. unfold count_frames. cbn [filter].
    destruct (is_frame op); cbn [List.length]; lia.
Qed.

Lemma frames_drawn_in_range_witness :
  Forall frame_in_range (frames (run sample_ops (mount 800 600))) /\
  List.length (frames (run sample_ops (mount 800 600))) = 3%nat.
Proof.
  apply (frames_drawn_in_range (mount 800 600) sample_ops).
  - apply mount_pitch.
  - constructor; [ | constructor ].
    unfold frame_in_range. cbn. pose proof Math_PI_gt_3. lra.
Defined.

(** ** The size of the renderer *)

Lemma step_size (s : Viewer) (op : Op) :
  (renderer_width (step s op), renderer_height (step s op),
   camera_aspect (step s op))
  = match op with
    | Resize w h => (w, h, IZR w / IZR h)
    | _ => (renderer_width s, renderer_height s, camera_aspect s)
    end.
Proof.
  destruct op as [ty e | | w h]; cbn [step].
  - destruct ty; cbn [listener];
      unfold onPointerDown, onPointerMove, onPointerUp;
      destruct (getXY e); destruct (isDragging s); reflexivity.
  - unfold animate. destruct (isDragging s); reflexivity.
  - reflexivity.
Qed.

(** After a run the renderer has the size of the last resize of the run
    and the camera its aspect; without a resize both are as before.  No
    listener of the canvas and no frame changes them. *)
Theorem renderer_follows_last_resize (s : Viewer) (ops : list Op) :
  match last_resize ops with
  | Some (w, h) =>
      renderer_width (run ops s) = w /\ renderer_height (run ops s) = h /\
      camera_aspect (run ops s) = IZR w / IZR h
  | None =>
      renderer_width (run ops s) = renderer_width s /\
      renderer_height (run ops s) = renderer_height s /\
      camera_aspect (run ops s) = camera_aspect s
  end.
Proof.
  induction ops as [ | op ops IH] using rev_ind.
  - cbn. repeat split.
  - unfold last_resize, run in *. rewrite !fold_left_app. cbn [fold_left].
    pose proof (step_size (fold_left step ops s) op) as Hop.
    destruct op as [ty e | | w h]; [ | | repeat split ].
    all: pose proof (f_equal (fun t => fst (fst t)) Hop) as Hw;
      pose proof (f_equal (fun t => snd (fst t)) Hop) as Hh;
      pose proof (f_equal snd Hop) as Ha;
      cbn [fst snd] in Hw, Hh, Ha;
      rewrite Hw, Hh, Ha; exact IH.
Qed.

(** * Further properties of the striped texture *)

(** The rows below [n] bands are the rows of one of them. *)
Lemma band_of_row (py : R) (n : nat) :
  0 <= py < INR n * 512 / 14 ->
  exists i, (i < n)%nat /\ band_top i <= py < band_bottom i.
Proof.
  induction n as [ | n IH]; intros Hpy.
  - cbn in Hpy. lra.
  - rewrite S_INR in Hpy.
    destruct (Rlt_dec py (INR n * 512 / 14)) as [Hlt | Hge].
    + destruct IH as (i & Hi & Hb); [ lra | ].
      exists i. split; [ lia | exact Hb ].
    + exists n. split; [ lia | ]. unfold band_top, band_bottom. lra.
Qed.

Lemma filter_eqb_seq (i n : nat) :
  List.length (filter (fun j => (j =? i)%nat) (seq 0 n))
  = if (i <? n)%nat then 1%nat else 0%nat.
Proof.
  induction n as [ | n IH].
  - reflexivity.
  - rewrite seq_S, filter_app, length_app, IH. cbn [Nat.add filter].
    destruct (Nat.eqb_spec n i) as [-> | Hne]; cbn [List.length].
    + rewrite Nat.ltb_irrefl.
      replace (i <? S i)%nat with true by (symmetry; apply Nat.ltb_lt; lia).
      reflexivity.
    + destruct (Nat.ltb_spec i n) as [Hlt | Hge].
      * replace (i <? S n)%nat with true by (symmetry; apply Nat.ltb_lt; lia).
        reflexivity.
      * replace (i <? S n)%nat with false by (symmetry; apply Nat.ltb_ge; lia).
        reflexivity.
Qed.

(** A point outside the canvas is covered by no rectangle of the loop. *)
Lemma covers_outside (j : nat) (px py : R) :
  (j < 14)%nat ->
  ~ (0 <= px < 512 /\ 0 <= py < 512) ->
  covers (stripe_rect j) px py = false.
Proof.
  intros Hj Hout.
  destruct (stripe_rect_rows j) as (Ex & Ew & Ey & Eh).
  unfold covers. rewrite Ex, Ew, Eh, Ey. unfold band_top, band_bottom.
  assert (H0 : 0 <= INR j) by apply pos_INR.
  assert (H14 : INR j + 1 <= 14).
  { rewrite <- S_INR. replace 14 with (INR 14) by (rewrite INR_IZR_INZ; reflexivity).
    apply le_INR. lia. }
  destruct (Rle_dec 0 px); [ | reflexivity ].
  destruct (Rlt_dec px (0 + 512)); [ | reflexivity ].
  destruct (Rle_dec (INR j * 512 / 14) py); [ | reflexivity ].
  destruct (Rlt_dec py ((INR j + 1) * 512 / 14)); [ | reflexivity ].
  exfalso. apply Hout. lra.
Qed.

(** Every point of the 512 by 512 canvas lies in exactly one of the
    rectangles that the loop fills and has one of the two greens; a point
    outside the canvas lies in none and is not painted. *)
Theorem stripes_tile_canvas (px py : R) :
  (0 <= px < 512 /\ 0 <= py < 512 ->
   List.length (filter (fun r => covers r px py) (filled (ctx2d canvas))) = 1%nat /\
   (colorAt (ctx2d canvas) px py = Some "#0b8a25"%string \/
    colorAt (ctx2d canvas) px py = Some "#033d0b"%string)) /\
  (~ (0 <= px < 512 /\ 0 <= py < 512) ->
   filter (fun r => covers r px py) (filled (ctx2d canvas)) = [] /\
   colorAt (ctx2d canvas) px py = None).
Proof.
  unfold colorAt. rewrite canvas_filled. split.
  - intros [Hx Hy].
    destruct (band_of_row py stripeCount) as (i & Hi & Hb).
    { unfold stripeCount. rewrite INR_IZR_INZ. cbn [Z.of_nat Pos.of_succ_nat Pos.succ]. lra. }
    split.
    + assert (E : filter (fun r => covers r px py) (map stripe_rect (seq 0 stripeCount))
                 = map stripe_rect (filter (fun j => (j =? i)%nat) (seq 0 stripeCount))).
      { induction (seq 0 stripeCount) as [ | j l IHl]; [ reflexivity | ].
        cbn [map filter]. rewrite (covers_stripe_rect i px py Hx Hb j).
        destruct (j =? i)%nat; cbn [map]; rewrite IHl; reflexivity. }
      rewrite E, length_map, filter_eqb_seq.
      replace (i <? stripeCount)%nat with true
        by (symmetry; apply Nat.ltb_lt; exact Hi).
      reflexivity.
    + rewrite (colorAt_stripes i px py Hx Hb stripeCount).
      replace (i <? stripeCount)%nat with true
        by (symmetry; apply Nat.ltb_lt; exact Hi).
      unfold band_color. destruct (Nat.even i); [ left | right ]; reflexivity.
  - intros Hout.
    assert (Hall : forall j, In j (seq 0 stripeCount) ->
                             covers (stripe_rect j) px py = false).
    { intros j Hj. apply in_seq in Hj. apply covers_outside; [ | exact Hout ].
      unfold stripeCount in Hj. lia. }
    induction (seq 0 stripeCount) as [ | j l IHl]; [ split; reflexivity | ].
    cbn [map filter fold_left].
    rewrite (Hall j (or_introl eq_refl)).
    apply IHl. intros j' Hj'. apply Hall. right. exact Hj'.
Qed.

(** * The meshes of the loaded object *)

(** Induction on a node, with the property for all its children. *)
Lemma Node_forall_ind (P : Node -> Prop) :
  (forall props children, Forall P children -> P (mkNode props children)) ->
  forall n, P n.
Proof.
  intros Hnode.
  fix IH 1. intros [props children]. apply Hnode.
  induction children as [ | c cs IHcs]; constructor.
  - apply IH.
  - exact IHcs.
Qed.

(** The traversal calls the callback on every node once, in order, and
    keeps the shape of the object. *)
Lemma nodes_traverse (callback : NodeProps -> NodeProps) (n : Node) :
  nodes (traverse callback n) = map callback (nodes n).
Proof.
  induction n as [props children IH] using Node_forall_ind.
  cbn [traverse nodes map]. f_equal.
  induction IH as [ | c cs Hc _ IHcs]; cbn [map flat_map].
  - reflexivity.
  - rewrite map_app, Hc, IHcs. reflexivity.
Qed.

(** After the traversal of lines 92-98 every mesh of the loaded object, at
    any depth, has the striped material and casts and receives shadows;
    the nodes that are not meshes are as the loader made them, and the
    object has the nodes it had, meshes where it had meshes. *)
Theorem traverse_stripes_every_mesh (obj : Node) :
  List.length (nodes (traverse stripe_child obj)) = List.length (nodes obj) /\
  forall i child,
    nth_error (nodes obj) i = Some child ->
    exists child',
      nth_error (nodes (traverse stripe_child obj)) i = Some child' /\
      isMesh child' = isMesh child /\
      (isMesh child = true ->
       material child' = stripedMat /\
       castShadow child' = true /\ receiveShadow child' = true) /\
      (isMesh child = false -> child' = child).
Proof.
  rewrite nodes_traverse. split; [ apply length_map | ].
  intros i child Hi. exists (stripe_child child).
  split; [ rewrite nth_error_map, Hi; reflexivity | ].
  unfold stripe_child. destruct (isMesh child) eqn:Hm;
    cbn [isMesh material castShadow receiveShadow].
  - split; [ reflexivity | ]. split; [ intros _; repeat split | discriminate ].
  - split; [ exact Hm | ]. split; [ discriminate | reflexivity ].
Qed.

(** Traversing again changes nothing. *)
Lemma traverse_stripes_idempotent (obj : Node) :
  traverse stripe_child (traverse stripe_child obj) = traverse stripe_child obj.
Proof.
  induction obj as [props children IH] using Node_forall_ind.
  cbn [traverse]. f_equal.
  - unfold stripe_child. destruct (isMesh props) eqn:Hm; cbn; rewrite ?Hm;
      reflexivity.
  - rewrite map_map. induction IH as [ | c cs Hc _ IHcs]; cbn [map].
    + reflexivity.
    + rewrite Hc, IHcs. reflexivity.
Qed.

(** * The life of the effect *)

(** The registrations on a component given by its fields. *)
Lemma canvas_add_mk ty fn passive v sz cl wl a d f :
  canvas_add ty fn passive (mkComponent v sz cl wl a d f)
  = mkComponent v sz
      (addEventListener same_canvas_listener
         (mkCanvasListener ty fn false passive) cl)
      wl a d f.
Proof. reflexivity. Qed.

Lemma canvas_remove_mk ty fn v sz cl wl a d f :
  canvas_remove ty fn (mkComponent v sz cl wl a d f)
  = mkComponent v sz
      (removeEventListener same_canvas_listener
         (mkCanvasListener ty fn false false) cl)
      wl a d f.
Proof. reflexivity. Qed.

Lemma set_window_listeners_mk l v sz cl wl a d f :
  set_window_listeners l (mkComponent v sz cl wl a d f)
  = mkComponent v sz cl l a d f.
Proof. reflexivity. Qed.

Lemma animate_component_mk v sz cl wl a d f :
  animate_component (mkComponent v sz cl wl a d f)
  = mkComponent (animate v) sz cl wl a d true.
Proof. reflexivity. Qed.

(** The effect on the fields of the component. *)
Lemma effect_fields (w h : Z) (win : list WindowListener) :
  effect w h win =
    mkComponent (mount w h) (w, h) effect_canvas_listeners
      (addEventListener same_window_listener
         (mkWindowListener "resize" fn_onResize false) win)
      true false true.
Proof.
  unfold effect. cbv zeta.
  rewrite !canvas_add_mk. cbn [window_listeners].
  rewrite set_window_listeners_mk, animate_component_mk.
  reflexivity.
Qed.

(** The cleanup on the fields of the component. *)
Lemma cleanup_fields v sz cl wl a d f :
  cleanup (mkComponent v sz cl wl a d f) =
    mkComponent v sz
      (fold_left
         (fun cl l => removeEventListener same_canvas_listener l cl)
         [ mkCanvasListener mousedown fn_onPointerDown false false;
           mkCanvasListener mousemove fn_onPointerMove false false;
           mkCanvasListener mouseup fn_onPointerUp false false;
           mkCanvasListener mouseleave fn_onPointerUp false false;
           mkCanvasListener touchstart fn_onPointerDown false false;
           mkCanvasListener touchmove fn_onPointerMove false false;
           mkCanvasListener touchend fn_onPointerUp false false;
           mkCanvasListener touchcancel fn_onPointerUp false false ]
         cl)
      (removeEventListener same_window_listener
         (mkWindowListener "resize" fn_onResize false) wl)
      false true f.
Proof.
  unfold cleanup. cbv zeta. cbn [window_listeners].
  rewrite set_window_listeners_mk. rewrite !canvas_remove_mk.
  cbn [fold_left canvas_attached viewer container_size canvas_listeners
       window_listeners renderer_disposed frame_requested].
  destruct a; reflexivity.
Qed.

Section Life.

(** The listeners that the window has from other code. *)
Variable win : list WindowListener.
Hypothesis win_foreign : foreign_listeners win = true.

Lemma foreign_not_same (l : WindowListener) :
  In l win ->
  same_window_listener (mkWindowListener "resize" fn_onResize false) l = false.
Proof.
  intros Hl. unfold foreign_listeners in win_foreign.
  rewrite forallb_forall in win_foreign. specialize (win_foreign l Hl).
  unfold same_window_listener. cbn [w_type w_fn w_capture].
  destruct (w_fn l); [ discriminate | ].
  destruct (WindowFn_eq_dec fn_onResize (fn_foreign id)); [ discriminate | ].
  rewrite andb_false_r. reflexivity.
Qed.

Lemma existsb_foreign :
  existsb (same_window_listener (mkWindowListener "resize" fn_onResize false)) win
  = false.
Proof.
  destruct (existsb _ win) eqn:E; [ | reflexivity ].
  apply existsb_exists in E. destruct E as (l & Hl & Hs).
  rewrite (foreign_not_same l Hl) in Hs. discriminate.
Qed.

Lemma remove_foreign :
  removeEventListener same_window_listener
    (mkWindowListener "resize" fn_onResize false) (effect_window_listeners win)
  = win.
Proof.
  unfold removeEventListener, effect_window_listeners.
  rewrite filter_app. cbn [filter].
  assert (Hself : same_window_listener
                    (mkWindowListener "resize" fn_onResize false)
                    (mkWindowListener "resize" fn_onResize false) = true)
    by reflexivity.
  rewrite Hself. cbn [negb]. rewrite app_nil_r.
  apply forallb_filter_id. apply forallb_forall. intros l Hl.
  rewrite (foreign_not_same l Hl). reflexivity.
Qed.

(** A component between the effect and its cleanup. *)
Definition mounted (c : Component) : Prop :=
  canvas_listeners c = effect_canvas_listeners /\
  window_listeners c = effect_window_listeners win /\
  canvas_attached c = true /\
  renderer_disposed c = false /\
  frame_requested c = true.

Lemma effect_mounted (w h : Z) :
  mounted (effect w h win) /\ viewer (effect w h win) = mount w h.
Proof.
  rewrite effect_fields. unfold mounted, addEventListener.
  rewrite existsb_foreign.
  cbn [viewer canvas_listeners window_listeners canvas_attached
       renderer_disposed frame_requested].
  repeat split.
Qed.

Lemma dispatch_canvas_mounted (ty : EventType) (e : Event.t) (c : Component) :
  mounted c ->
  mounted (dispatch_canvas ty e c) /\
  viewer (dispatch_canvas ty e c) = step (viewer c) (Dispatch ty e).
Proof.
  intros (Hc & Hw & Ha & Hd & Hf). split.
  - unfold mounted, dispatch_canvas, set_viewer.
    cbn [canvas_listeners window_listeners canvas_attached renderer_disposed
         frame_requested].
    repeat split; assumption.
  - unfold dispatch_canvas, set_viewer. cbn [viewer step]. rewrite Hc.
    destruct ty; reflexivity.
Qed.

Lemma fold_foreign (size : Z * Z) (v : Viewer) :
  fold_left
    (fun v l =>
       if String.eqb (w_type l) "resize" then call_window_fn (w_fn l) size v
       else v)
    win v
  = v.
Proof.
  unfold foreign_listeners in win_foreign.
  rewrite forallb_forall in win_foreign.
  revert v. induction win as [ | l ls IH]; intros v; cbn [fold_left].
  - reflexivity.
  - assert (Hl : call_window_fn (w_fn l) size v = v).
    { specialize (win_foreign l (or_introl eq_refl)).
      destruct (w_fn l); [ discriminate | reflexivity ]. }
    rewrite Hl. destruct (String.eqb (w_type l) "resize").
    + apply IH. intros l' Hl'. apply win_foreign. right. exact Hl'.
    + apply IH. intros l' Hl'. apply win_foreign. right. exact Hl'.
Qed.

Lemma dispatch_resize_mounted (w h : Z) (c : Component) :
  mounted c ->
  mounted (dispatch_resize w h c) /\
  viewer (dispatch_resize w h c) = step (viewer c) (Resize w h).
Proof.
  intros (Hc & Hw & Ha & Hd & Hf). split.
  - unfold mounted, dispatch_resize.
    cbn [canvas_listeners window_listeners canvas_attached renderer_disposed
         frame_requested].
    repeat split; assumption.
  - unfold dispatch_resize. cbn [viewer step]. rewrite Hw.
    unfold effect_window_listeners. rewrite fold_left_app, fold_foreign.
    reflexivity.
Qed.

Lemma frame_callback_mounted (c : Component) :
  mounted c ->
  mounted (frame_callback c) /\
  viewer (frame_callback c) = step (viewer c) AnimationFrame.
Proof.
  intros (Hc & Hw & Ha & Hd & Hf).
  unfold frame_callback. rewrite Hf. unfold mounted, animate_component.
  cbn [canvas_listeners window_listeners canvas_attached renderer_disposed
       frame_requested viewer step].
  repeat split; assumption.
Qed.

Lemma life_run_mounted (ops : list LifeOp) :
  forall c,
    mounted c ->
    forallb (fun op => negb (is_cleanup op)) ops = true ->
    mounted (life_run ops c) /\
    viewer (life_run ops c) = run (closure_ops ops) (viewer c).
Proof.
  induction ops as [ | op ops IH]; intros c Hm Hops.
  - split; [ exact Hm | reflexivity ].
  - cbn [forallb] in Hops. apply andb_prop in Hops. destruct Hops as [Hop Hops].
    assert (Hstep : mounted (life_step c op) /\
                    exists o, as_op op = Some o /\
                              viewer (life_step c op) = step (viewer c) o).
    { destruct op as [ty e | w h | | ]; cbn [life_step as_op].
      - destruct (dispatch_canvas_mounted ty e c Hm) as [H1 H2]. eauto.
      - destruct (dispatch_resize_mounted w h c Hm) as [H1 H2]. eauto.
      - destruct (frame_callback_mounted c Hm) as [H1 H2]. eauto.
      - discriminate Hop. }
    destruct Hstep as (Hm' & o & Ho & Hv).
    destruct (IH (life_step c op) Hm' Hops) as [Hm'' Hrun].
    cbn [life_run fold_left]. fold (life_run ops (life_step c op)).
    split; [ exact Hm'' | ].
    rewrite Hrun, Hv. unfold closure_ops at 2. cbn [flat_map]. rewrite Ho.
    reflexivity.
Qed.

(** Between the effect and its cleanup the registered listeners do what
    the run of the closure says: an event on the canvas runs the listener
    of its type, once; a resize of the window runs [onResize] with the
    client size of the container; a frame runs [animate]. *)
Theorem effect_delivers_events (w h : Z) (ops : list LifeOp) :
  forallb (fun op => negb (is_cleanup op)) ops = true ->
  viewer (life_run ops (effect w h win)) = run (closure_ops ops) (mount w h) /\
  canvas_listeners (life_run ops (effect w h win)) = effect_canvas_listeners /\
  window_listeners (life_run ops (effect w h win)) = effect_window_listeners win.
Proof.
  intros Hops. destruct (effect_mounted w h) as [Hm Hv].
  destruct (life_run_mounted ops (effect w h win) Hm Hops)
    as [(Hc & Hw & _) Hrun].
  rewrite Hrun, Hv. repeat split; assumption.
Qed.

Lemma cleanup_mounted (c : Component) :
  mounted c ->
  canvas_listeners (cleanup c) = [] /\
  window_listeners (cleanup c) = win /\
  canvas_attached (cleanup c) = false /\
  renderer_disposed (cleanup c) = true /\
  viewer (cleanup c) = viewer c /\
  frame_requested (cleanup c) = frame_requested c.
Proof.
  destruct c as [v sz cl wl a d f]. unfold mounted.
  cbn [viewer canvas_listeners window_listeners canvas_attached
       renderer_disposed frame_requested].
  intros (Hc & Hw & Ha & Hd & Hf). subst cl wl.
  rewrite cleanup_fields, remove_foreign.
  cbn [viewer canvas_listeners window_listeners canvas_attached
       renderer_disposed frame_requested].
  repeat split.
Qed.

(** The cleanup takes out every listener that the effect added, also the
    two added as passive, and nothing else: the canvas has no listener
    left and the window has the listeners it had before the effect; the
    canvas is detached and the renderer disposed. *)
Theorem cleanup_removes_listeners (w h : Z) (ops : list LifeOp) :
  forallb (fun op => negb (is_cleanup op)) ops = true ->
  let c := cleanup (life_run ops (effect w h win)) in
  canvas_listeners c = [] /\
  window_listeners c = win /\
  canvas_attached c = false /\
  renderer_disposed c = true.
Proof.
  intros Hops. cbv zeta. destruct (effect_mounted w h) as [Hm _].
  destruct (life_run_mounted ops (effect w h win) Hm Hops) as [Hm' _].
  destruct (cleanup_mounted _ Hm') as (H1 & H2 & H3 & H4 & _).
  repeat split; assumption.
Qed.

(** A component after the cleanup. *)
Definition unmounted (c : Component) : Prop :=
  canvas_listeners c = [] /\ window_listeners c = win.

Lemma life_step_unmounted (c : Component) (op : LifeOp) :
  unmounted c ->
  is_frame_callback op = false ->
  unmounted (life_step c op) /\ viewer (life_step c op) = viewer c.
Proof.
  intros [Hc Hw] Hop. destruct op as [ty e | w h | | ]; cbn [life_step].
  - unfold unmounted, dispatch_canvas, set_viewer.
    cbn [canvas_listeners window_listeners viewer]. rewrite Hc.
    repeat split; assumption.
  - unfold unmounted, dispatch_resize.
    cbn [canvas_listeners window_listeners viewer]. rewrite Hw, fold_foreign.
    repeat split; assumption.
  - discriminate Hop.
  - assert (Hkeep : removeEventListener same_window_listener
                      (mkWindowListener "resize" fn_onResize false) win = win).
    { unfold removeEventListener. apply forallb_filter_id.
      apply forallb_forall. intros l Hl.
      rewrite (foreign_not_same l Hl). reflexivity. }
    destruct c as [v sz cl wl a d f]. unfold unmounted.
    cbn [canvas_listeners window_listeners] in Hc, Hw. subst cl wl.
    rewrite cleanup_fields, Hkeep.
    cbn [viewer canvas_listeners window_listeners]. repeat split.
Qed.

(** After the cleanup no event on the canvas and no resize of the window
    reaches the closure: rotation, drag state, camera and renderer size
    stay as the cleanup found them. *)
Theorem events_after_cleanup_do_nothing (w h : Z) (before after : list LifeOp) :
  forallb (fun op => negb (is_cleanup op)) before = true ->
  forallb (fun op => negb (is_frame_callback op)) after = true ->
  viewer (life_run after (cleanup (life_run before (effect w h win))))
  = viewer (life_run before (effect w h win)).
Proof.
  intros Hb Ha. destruct (effect_mounted w h) as [Hm _].
  destruct (life_run_mounted before (effect w h win) Hm Hb) as [Hm' _].
  destruct (cleanup_mounted _ Hm') as (H1 & H2 & _ & _ & Hv & _).
  rewrite <- Hv.
  assert (Hu : unmounted (cleanup (life_run before (effect w h win))))
    by (split; assumption).
  revert Hu. generalize (cleanup (life_run before (effect w h win))).
  induction after as [ | op ops IH]; intros c Hu.
  - reflexivity.
  - cbn [forallb] in Ha. apply andb_prop in Ha. destruct Ha as [Hop Hops].
    apply negb_true_iff in Hop.
    destruct (life_step_unmounted c op Hu Hop) as [Hu' Hv'].
    cbn [life_run fold_left]. fold (life_run ops (life_step c op)).
    rewrite (IH Hops (life_step c op) Hu'). exact Hv'.
Qed.

End Life.

Lemma effect_delivers_events_witness :
  viewer (life_run sample_life (effect 800 600 sample_window))
  = run (closure_ops sample_life) (mount 800 600) /\
  canvas_listeners (life_run sample_life (effect 800 600 sample_window))
  = effect_canvas_listeners /\
  window_listeners (life_run sample_life (effect 800 600 sample_window))
  = effect_window_listeners sample_window.
Proof.
  apply (effect_delivers_events sample_window eq_refl 800 600 sample_life).
  reflexivity.
Defined.

Lemma cleanup_removes_listeners_witness :
  canvas_listeners
    (cleanup (life_run sample_life (effect 800 600 sample_window))) = [] /\
  window_listeners
    (cleanup (life_run sample_life (effect 800 600 sample_window)))
  = sample_window /\
  canvas_attached
    (cleanup (life_run sample_life (effect 800 600 sample_window))) = false /\
  renderer_disposed
    (cleanup (life_run sample_life (effect 800 600 sample_window))) = true.
Proof.
  apply (cleanup_removes_listeners sample_window eq_refl 800 600 sample_life).
  reflexivity.
Defined.

Lemma events_after_cleanup_do_nothing_witness :
  viewer
    (life_run sample_afterlife
       (cleanup (life_run sample_life (effect 800 600 sample_window))))
  = viewer (life_run sample_life (effect 800 600 sample_window)).
Proof.
  apply (events_after_cleanup_do_nothing sample_window eq_refl 800 600
           sample_life sample_afterlife);
    reflexivity.
Defined.

(** ** The render loop and the cleanup *)

Lemma call_pointer_fn_frames (fn : PointerFn) (e : Event.t) (v : Viewer) :
  frames (call_pointer_fn fn e v) = frames v.
Proof.
  destruct fn; cbn [call_pointer_fn];
    unfold onPointerDown, onPointerMove, onPointerUp;
    destruct (getXY e); destruct (isDragging v); reflexivity.
Qed.

Lemma call_window_fn_frames (fn : WindowFn) (size : Z * Z) (v : Viewer) :
  frames (call_window_fn fn size v) = frames v.
Proof. destruct fn; reflexivity. Qed.

Lemma life_step_loop (c : Component) (op : LifeOp) :
  frame_requested c = true ->
  frame_requested (life_step c op) = true /\
  List.length (frames (viewer (life_step c op)))
  = ((if is_frame_callback op then 1 else 0)
     + List.length (frames (viewer c)))%nat.
Proof.
  intros Hf. destruct op as [ty e | w h | | ];
    cbn [life_step is_frame_callback].
  - unfold dispatch_canvas, set_viewer. cbn [frame_requested viewer Nat.add].
    split; [ exact Hf | ]. f_equal.
    generalize (viewer c). induction (canvas_listeners c) as [ | l ls IH];
      intros v; cbn [fold_left]; [ reflexivity | ].
    rewrite IH. destruct (EventType_eq_dec (c_type l) ty);
      [ apply call_pointer_fn_frames | reflexivity ].
  - unfold dispatch_resize. cbn [frame_requested viewer Nat.add].
    split; [ exact Hf | ]. f_equal.
    generalize (viewer c). induction (window_listeners c) as [ | l ls IH];
      intros v; cbn [fold_left]; [ reflexivity | ].
    rewrite IH. destruct (String.eqb (w_type l) "resize");
      [ apply call_window_fn_frames | reflexivity ].
  - unfold frame_callback. rewrite Hf. unfold animate_component.
    cbn [frame_requested viewer]. split; [ reflexivity | ].
    unfold animate. destruct (isDragging (viewer c)); reflexivity.
  - destruct c as [v sz cl wl a d f]. rewrite cleanup_fields.
    cbn [frame_requested viewer] in *. split; [ exact Hf | reflexivity ].
Qed.

(** The cleanup does not stop the render loop: whatever happens after the
    effect, the cleanup included, a call of [animate] stays requested, and
    every frame callback draws one more frame, on the disposed renderer
    too. *)
Theorem render_loop_survives_cleanup (w h : Z) (win : list WindowListener)
    (ops : list LifeOp) :
  frame_requested (life_run ops (effect w h win)) = true /\
  List.length (frames (viewer (life_run ops (effect w h win))))
  = S (List.length (filter is_frame_callback ops)).
Proof.
  assert (Hgen : forall c,
             frame_requested c = true ->
             frame_requested (life_run ops c) = true /\
             List.length (frames (viewer (life_run ops c)))
             = (List.length (filter is_frame_callback ops)
                + List.length (frames (viewer c)))%nat).
  { induction ops as [ | op ops IH]; intros c Hf.
    - split; [ exact Hf | reflexivity ].
    - destruct (life_step_loop c op Hf) as [Hf' Hlen].
      destruct (IH (life_step c op) Hf') as [Hf'' Hlen'].
      cbn [life_run fold_left]. fold (life_run ops (life_step c op)).
      split; [ exact Hf'' | ].
      rewrite Hlen', Hlen. cbn [filter].
      destruct (is_frame_callback op); cbn [List.length]; lia. }
  rewrite effect_fields.
  destruct (Hgen (mkComponent (mount w h) (w, h) effect_canvas_listeners
                    (addEventListener same_window_listener
                       (mkWindowListener "resize" fn_onResize false) win)
                    true false true) eq_refl) as [Hf Hlen].
  split; [ exact Hf | ].
  rewrite Hlen. cbn [viewer]. unfold mount.
  change (frames (animate (initial w h))) with
    [mkFrame (rotation_x (initial w h)) (rotation_y (animate (initial w h)))].
  cbn [List.length]. lia.
Qed.

(** Two frames after a cleanup are drawn like any other. *)
Lemma render_loop_survives_cleanup_witness :
  List.length
    (frames
       (viewer
          (life_run (sample_life ++ [Cleanup; FrameCallback; FrameCallback])
             (effect 800 600 sample_window))))
  = 5%nat.
Proof.
  apply (proj2 (render_loop_survives_cleanup 800 600 sample_window
                  (sample_life ++ [Cleanup; FrameCallback; FrameCallback]))).
Defined.
